(** * Kindle clippings: parser and book aggregation

    A shallow embedding of [kindle_clipping_html_formatter.py]: the block
    splitter, [Highlight.parse_highlight] with its helpers
    [Book.tidy_title], [Highlight.tidy_date] and
    [Highlight.get_type_and_location], the content hash
    [Highlight.to_hash], and the aggregation loop of [process].

    Python strings are lists of characters; a character is a code point
    in the range 0..255.  Python exceptions are values of [exn], and a
    computation that may raise has type [result A]. *)

From Stdlib Require Import Ascii String ZArith.
From stdpp Require Import base option list strings gmap.

Local Open Scope list_scope.

(** ** Strings *)

Abbreviation str := (list ascii).

(** A string literal of the source. *)
Definition txt (s : string) : str := list_ascii_of_string s.

Definition code (c : ascii) : nat := nat_of_ascii c.

Definition in_range (lo hi : nat) (c : ascii) : bool :=
  (lo <=? code c) && (code c <=? hi).

(** [str.isspace] on one character, and the class [\s] of [re]. *)
Definition isspace (c : ascii) : bool :=
  in_range 9 13 c || in_range 28 32 c || (code c =? 133) || (code c =? 160).

(** The class [\d] of [re]: in this range the decimal digits are 0-9. *)
Definition isdigit (c : ascii) : bool := in_range 48 57 c.

Definition isupper_az (c : ascii) : bool := in_range 65 90 c.
Definition islower_az (c : ascii) : bool := in_range 97 122 c.

(** [str.isalnum] on one character. *)
Definition isalnum (c : ascii) : bool :=
  isdigit c || isupper_az c || islower_az c
  || (code c =? 170) || (code c =? 178) || (code c =? 179) || (code c =? 181)
  || (code c =? 185) || (code c =? 186) || in_range 188 190 c
  || in_range 192 214 c || in_range 216 246 c || in_range 248 255 c.

(** The class [\w] of [re]; [\W] is its complement. *)
Definition isword (c : ascii) : bool := isalnum c || (code c =? 95).

(** [str.lower] on one character of the range a-z / A-Z. *)
Definition lower (c : ascii) : ascii :=
  if isupper_az c then ascii_of_nat (code c + 32) else c.

(** [s.startswith(p)]. *)
Fixpoint startswith (p s : str) : bool :=
  match p, s with
  | [], _ => true
  | _ :: _, [] => false
  | a :: p', b :: s' => Ascii.eqb a b && startswith p' s'
  end.

Definition cons_head (c : ascii) (bs : list str) : list str :=
  match bs with
  | b :: bs' => (c :: b) :: bs'
  | [] => [[c]]
  end.

(** [s.split(sep)] scans [s] from the left; at an occurrence of [sep] it
    closes the current piece and skips the whole occurrence, so that
    occurrences never overlap.  [skip] counts the characters of the
    occurrence still to be passed over.  Every call site passes a
    non-empty literal as [sep]. *)
Fixpoint split_from (sep : str) (skip : nat) (s : str) : list str :=
  match s with
  | [] => [[]]
  | c :: s' =>
      match skip with
      | S k => split_from sep k s'
      | O =>
          if startswith sep s
          then [] :: split_from sep (length sep - 1) s'
          else cons_head c (split_from sep 0 s')
      end
  end.

Definition split (sep s : str) : list str := split_from sep 0 s.

(** [s.count(sep)]: the number of non-overlapping occurrences, found by
    the same left-to-right scan. *)
Fixpoint count_from (sep : str) (skip : nat) (s : str) : nat :=
  match s with
  | [] => 0
  | c :: s' =>
      match skip with
      | S k => count_from sep k s'
      | O =>
          if startswith sep s
          then S (count_from sep (length sep - 1) s')
          else count_from sep 0 s'
      end
  end.

Definition count (sep s : str) : nat := count_from sep 0 s.

(** [s.replace(old, new)]. *)
Fixpoint replace_from (old new : str) (skip : nat) (s : str) : str :=
  match s with
  | [] => []
  | c :: s' =>
      match skip with
      | S k => replace_from old new k s'
      | O =>
          if startswith old s
          then new ++ replace_from old new (length old - 1) s'
          else c :: replace_from old new 0 s'
      end
  end.

Definition replace (old new s : str) : str := replace_from old new 0 s.

(** [sep.join(pieces)]. *)
Fixpoint join (sep : str) (pieces : list str) : str :=
  match pieces with
  | [] => []
  | [p] => p
  | p :: ps => p ++ sep ++ join sep ps
  end.

Fixpoint lstrip_with (drop_it : ascii -> bool) (s : str) : str :=
  match s with
  | [] => []
  | c :: s' => if drop_it c then lstrip_with drop_it s' else s
  end.

Definition rstrip_with (drop_it : ascii -> bool) (s : str) : str :=
  rev (lstrip_with drop_it (rev s)).

Definition strip_with (drop_it : ascii -> bool) (s : str) : str :=
  rstrip_with drop_it (lstrip_with drop_it s).

(** [s.strip()]. *)
Definition strip (s : str) : str := strip_with isspace s.

(** ** Exceptions *)

Inductive exn := IndexError | ValueError | AttributeError.

Inductive result (A : Type) :=
  | Ok (a : A)
  | Raise (e : exn).
Arguments Ok {A} a.
Arguments Raise {A} e.

#[global] Instance result_ret : MRet result := fun A a => Ok a.
#[global] Instance result_bind : MBind result := fun A B f m =>
  match m with
  | Ok a => f a
  | Raise e => Raise e
  end.

(** [l[i]] for a non-negative literal [i]. *)
Definition index {A} (l : list A) (i : nat) : result A :=
  match l !! i with
  | Some x => Ok x
  | None => Raise IndexError
  end.

(** [l[start:-1]]. *)
Definition slice_to_last {A} (start : nat) (l : list A) : list A :=
  drop start (take (length l - 1) l).

(** ** Title normalisation: [Book.tidy_title] *)

Definition one_of (cs : str) (c : ascii) : bool :=
  existsb (Ascii.eqb c) cs.

(** The characters kept by the first substitution: its pattern is one or
    more characters outside the class of a-z, A-Z, \d, \s and the
    punctuation ; , _ - . ( ) with the single and the double quote (code
    34). *)
Definition title_char (c : ascii) : bool :=
  islower_az c || isupper_az c || isdigit c || isspace c
  || one_of (txt ";,_-.()'") c || (code c =? 34).

(** The first [re.sub] deletes every maximal run of characters outside
    the class, which leaves the characters of the class in order.  The
    second one, with pattern [^\W+|\W+$], has a match at position 0 when
    the title starts with non-word characters, and its only other match
    is the run of non-word characters that reaches the end of the title:
    it removes the non-word characters at both ends. *)
Definition tidy_title (raw_title : str) : str :=
  let title := List.filter title_char raw_title in
  strip_with (fun c => negb (isword c)) title.

(** ** The author group

    The pattern of [re.search] is: an opening bracket, group 1 of any
    number of characters other than a closing bracket, a closing bracket,
    any number of characters other than an opening bracket, end of
    line. *)

(** The text before the first closing bracket, and the text after it. *)
Fixpoint upto_close (s : str) : option (str * str) :=
  match s with
  | [] => None
  | c :: s' =>
      if Ascii.eqb c ")"%char then Some ([], s')
      else match upto_close s' with
           | Some (g, rest) => Some (c :: g, rest)
           | None => None
           end
  end.

(** The pattern tried at the start of [s]; the result is group 1.  The
    greedy group stops at the first closing bracket, and giving
    characters back never helps since none of them is a closing bracket;
    the tail of the pattern then needs the rest of the line to be free
    of opening brackets. *)
Definition match_author_at (s : str) : option str :=
  match s with
  | c :: s' =>
      if Ascii.eqb c "("%char
      then match upto_close s' with
           | Some (g, rest) =>
               if forallb (fun c => negb (Ascii.eqb c "("%char)) rest
               then Some g else None
           | None => None
           end
      else None
  | [] => None
  end.

(** [re.search] tries the start positions from the left; the result is
    the start of the match and group 1. *)
Fixpoint search_author (s : str) : option (nat * str) :=
  match match_author_at s with
  | Some g => Some (0, g)
  | None =>
      match s with
      | [] => None
      | _ :: s' =>
          match search_author s' with
          | Some (i, g) => Some (S i, g)
          | None => None
          end
      end
  end.

(** ** [Highlight.get_type_and_location] *)

Definition get_type_and_location (loc_str : str) : result (str * str) :=
  let loc_str := strip (replace (txt "- Your ") [] loc_str) in
  let type_and_location := split (txt " on ") loc_str in
  highlight_type ← index type_and_location 0;
  second ← index type_and_location 1;
  let page_and_location := split (txt " | ") second in
  highlight_location ←
    (if length page_and_location =? 1
     then index page_and_location 0
     else index page_and_location 1);
  mret (strip highlight_type, strip highlight_location).

(** ** Dates: [datetime.strptime] and [datetime.strftime]

    [tidy_date] calls the standard library with the input format
    [%A, %B %d, %Y %H:%M:%S %p] and the output format
    [%d/%m/%y %H:%M:%S].  [strptime] compiles the input format to a
    regular expression, every directive to a named group and every run
    of white space to [\s+], and matches it ignoring case; the matchers
    below follow that expression piece by piece, in continuation style so
    that an alternative which leads to a failure later on is given up for
    the next one, as the backtracking matcher of [re] does. *)

Record datetime := mk_datetime {
  year : nat; month : nat; day : nat;
  hour : nat; minute : nat; second : nat
}.

Section Matchers.
Context {R : Type}.

Definition cont := str -> option R.

(** One character of a class. *)
Definition m_class (p : ascii -> bool) (k : ascii -> cont) : cont :=
  fun s =>
    match s with
    | c :: s' => if p c then k c s' else None
    | [] => None
    end.

(** One literal character of the pattern, ignoring case. *)
Definition m_lit (a : ascii) (k : cont) : cont :=
  m_class (fun c => Ascii.eqb (lower c) a) (fun _ => k).

(** A literal word of the pattern, ignoring case. *)
Fixpoint m_word (w : str) (k : cont) : cont :=
  match w with
  | [] => k
  | a :: w' => m_lit a (m_word w' k)
  end.

(** [a|b]. *)
Definition m_alt (a b : cont) : cont :=
  fun s => match a s with Some r => Some r | None => b s end.

(** An alternation of names; the continuation gets the index of the
    name that matched. *)
Fixpoint m_names (names : list (nat * str)) (k : nat -> cont) : cont :=
  match names with
  | [] => fun _ => None
  | (i, w) :: names' => m_alt (m_word w (k i)) (m_names names' k)
  end.

(** [\s*], greedy. *)
Fixpoint m_spaces0 (k : cont) (s : str) : option R :=
  match s with
  | c :: s' =>
      if isspace c
      then match m_spaces0 k s' with Some r => Some r | None => k s end
      else k s
  | [] => k s
  end.

(** [\s+]. *)
Definition m_spaces (k : cont) : cont :=
  m_class isspace (fun _ => m_spaces0 k).

(** One digit of the range [lo-hi]; the continuation gets its value. *)
Definition m_digit (lo hi : nat) (k : nat -> cont) : cont :=
  m_class (fun c => in_range (48 + lo) (48 + hi) c) (fun c => k (code c - 48)).

(** Two digits, the first of [a1-a2] and the second of [b1-b2]. *)
Definition m_digit2 (a1 a2 b1 b2 : nat) (k : nat -> cont) : cont :=
  m_digit a1 a2 (fun a => m_digit b1 b2 (fun b => k (10 * a + b))).
End Matchers.

(** The names of the C locale, in the order of the alternation (longest
    first), each with its index in [calendar.day_name] and
    [calendar.month_name]. *)
Definition weekday_names : list (nat * str) :=
  [ (2, txt "wednesday"); (3, txt "thursday"); (5, txt "saturday");
    (1, txt "tuesday"); (0, txt "monday"); (4, txt "friday");
    (6, txt "sunday") ].

Definition month_names : list (nat * str) :=
  [ (9, txt "september"); (2, txt "february"); (11, txt "november");
    (12, txt "december"); (1, txt "january"); (10, txt "october");
    (8, txt "august"); (3, txt "march"); (4, txt "april");
    (6, txt "june"); (7, txt "july"); (5, txt "may") ].

Definition ampm_names : list (nat * str) := [ (0, txt "am"); (1, txt "pm") ].

Section Directives.
Context {R : Type}.

(** [%d]: 3[0-1]|[1-2]\d|0[1-9]|[1-9]| [1-9] *)
Definition m_d (k : nat -> @cont R) : cont :=
  m_alt (m_digit2 3 3 0 1 k)
 (m_alt (m_digit2 1 2 0 9 k)
 (m_alt (m_digit2 0 0 1 9 k)
 (m_alt (m_digit 1 9 k)
        (m_lit " " (m_digit 1 9 k))))).

(** [%Y]: \d\d\d\d *)
Definition m_Y (k : nat -> @cont R) : cont :=
  m_digit2 0 9 0 9 (fun hi => m_digit2 0 9 0 9 (fun lo => k (100 * hi + lo))).

(** [%H]: 2[0-3]|[0-1]\d|\d *)
Definition m_H (k : nat -> @cont R) : cont :=
  m_alt (m_digit2 2 2 0 3 k) (m_alt (m_digit2 0 1 0 9 k) (m_digit 0 9 k)).

(** [%M]: [0-5]\d|\d *)
Definition m_M (k : nat -> @cont R) : cont :=
  m_alt (m_digit2 0 5 0 9 k) (m_digit 0 9 k).

(** [%S]: 6[0-1]|[0-5]\d|\d *)
Definition m_S (k : nat -> @cont R) : cont :=
  m_alt (m_digit2 6 6 0 1 k) (m_alt (m_digit2 0 5 0 9 k) (m_digit 0 9 k)).
End Directives.

(** What the groups of a match hold, and the unmatched rest of the input. *)
Record date_groups := mk_groups {
  g_A : nat; g_B : nat; g_d : nat; g_Y : nat;
  g_H : nat; g_M : nat; g_S : nat; g_p : nat;
  g_rest : str
}.

(** [format_regex.match(data_string)] for the input format. *)
Definition match_input_format : str -> option date_groups :=
  m_names weekday_names (fun A =>
  m_lit "," (m_spaces (
  m_names month_names (fun B =>
  m_spaces (
  m_d (fun d =>
  m_lit "," (m_spaces (
  m_Y (fun Y =>
  m_spaces (
  m_H (fun H =>
  m_lit ":" (
  m_M (fun M =>
  m_lit ":" (
  m_S (fun S =>
  m_spaces (
  m_names ampm_names (fun p rest =>
  Some (mk_groups A B d Y H M S p rest)))))))))))))))))).

Definition is_leap (y : nat) : bool :=
  (y mod 4 =? 0) && (negb (y mod 100 =? 0) || (y mod 400 =? 0)).

Definition days_in_month (y m : nat) : nat :=
  match m with
  | 2 => if is_leap y then 29 else 28
  | 4 | 6 | 9 | 11 => 30
  | _ => 31
  end.

(** [datetime.strptime(date_str, input_date_format)].  A string that does
    not match, or that goes on after the match, is a [ValueError]; so is
    a field that the constructors of [date] and [datetime] refuse (year
    0, a day the month does not have, second 60 or 61).  The groups of
    [%A] and [%p] do not reach the result: the week day is not compared
    with the date, and the AM/PM mark changes the hour only when the
    hour was read with [%I], while this format reads it with [%H]. *)
Definition strptime (date_str : str) : result datetime :=
  match match_input_format date_str with
  | None => Raise ValueError
  | Some g =>
      if negb (length (g_rest g) =? 0) then Raise ValueError
      else if (g_Y g =? 0) then Raise ValueError
      else if (days_in_month (g_Y g) (g_B g) <? g_d g) then Raise ValueError
      else if (59 <? g_S g) then Raise ValueError
      else Ok (mk_datetime (g_Y g) (g_B g) (g_d g) (g_H g) (g_M g) (g_S g))
  end.

Definition digit_char (n : nat) : ascii := ascii_of_nat (48 + n mod 10).

(** A number printed with two digits, as [%d], [%m], [%y], [%H], [%M]
    and [%S] print it. *)
Definition two_digits (n : nat) : str :=
  [digit_char (n / 10); digit_char n].

(** [datetime_object.strftime(OUTPUT_DATE_FORMAT)]. *)
Definition strftime (t : datetime) : str :=
  two_digits (day t) ++ txt "/" ++ two_digits (month t) ++ txt "/"
  ++ two_digits (year t mod 100) ++ txt " "
  ++ two_digits (hour t) ++ txt ":" ++ two_digits (minute t) ++ txt ":"
  ++ two_digits (second t).

(** ** [Highlight.tidy_date] *)

Definition tidy_date (raw_date : str) : result str :=
  let date_str := replace (txt "Added on ") [] raw_date in
  datetime_object ← strptime date_str;
  mret (strftime datetime_object).

(** ** [Highlight.parse_highlight] *)

(** The attributes of a [Highlight] object: the six components of the
    tuple that [parse_highlight] returns, each a string or [None]. *)
Record Highlight := mk_Highlight {
  title : option str;
  author : option str;
  highlight_type : option str;
  main_loc : option str;
  date : option str;
  content : option str
}.

Definition empty_set : Highlight :=
  mk_Highlight None None None None None None.

Definition nl : str := ["010"%char].

(** The truth value of a list. *)
Definition truthy {A} (l : list A) : bool := negb (length l =? 0).

(** The parser once the block is split into lines and long enough. *)
Definition parse_lines (split_str : list str) : result Highlight :=
  book_details ← index split_str 0;
  match search_author book_details with
  | Some (start, group1) =>
      let title := tidy_title (take start book_details) in
      let author := group1 in
      highlight_details ← index split_str 1;
      let highlight_details_split := split (txt " | Added on ") highlight_details in
      if truthy highlight_details_split then
        descriptor ← index highlight_details_split 0;
        type_and_location ← get_type_and_location descriptor;
        let highlight_type := type_and_location.1 in
        let main_loc := type_and_location.2 in
        date ← index highlight_details_split 1;
        date ← tidy_date date;
        let content := join nl (slice_to_last 3 split_str) in
        mret (mk_Highlight (Some (strip title)) (Some (strip author))
                (Some (strip highlight_type)) (Some (strip main_loc))
                (Some date) (Some (strip content)))
      else mret empty_set
  | None => mret empty_set
  end.

(** The line removed when the block does not start the file: the empty
    string before the first line break. *)
Definition drop_separator_line (split_str : list str) : list str :=
  match split_str with
  | [] :: rest => rest
  | _ => split_str
  end.

Definition parse_highlight (raw_highlight_str : str) : result Highlight :=
  let split_str := split nl raw_highlight_str in
  if length split_str <? 5 then mret empty_set
  else parse_lines (drop_separator_line split_str).

(** A block given by its lines. *)
Definition lines (ls : list string) : str := join nl (map txt ls).

Definition full (t a k l d c : string) : Highlight :=
  mk_Highlight (Some (txt t)) (Some (txt a)) (Some (txt k)) (Some (txt l))
    (Some (txt d)) (Some (txt c)).

Definition great_book_block : str :=
  lines [ "The Great Book (Jane Author)";
          "- Your Highlight on Location 120-121 | Added on Wednesday, October 24, 2018 10:25:36 PM";
          "";
          "This is the highlighted text.";
          "" ]%string.

(** ** [Highlight.to_hash]: SHA-1 of the UTF-8 bytes, in hexadecimal *)

Module SHA1.
Local Open Scope Z_scope.

Definition w32 (x : Z) : Z := x mod 2 ^ 32.

Definition rotl (n x : Z) : Z :=
  w32 (Z.lor (Z.shiftl x n) (Z.shiftr x (32 - n))).

(** The message followed by the bit 1, zeros up to 56 modulo 64 bytes,
    and the length in bits as a 64-bit big-endian number. *)
Definition be_bytes (n : nat) (x : Z) : list Z :=
  map (fun i => Z.shiftr x (8 * Z.of_nat i) mod 256) (rev (seq 0 n)).

Definition pad (msg : list Z) : list Z :=
  let len := Z.of_nat (length msg) in
  let zeros := Z.to_nat ((55 - len) mod 64) in
  msg ++ [128] ++ repeat 0 zeros ++ be_bytes 8 (8 * len).

Definition be_word (bs : list Z) : Z :=
  fold_left (fun acc b => acc * 256 + b) bs 0.

Fixpoint chunks {A} (fuel size : nat) (l : list A) : list (list A) :=
  match fuel, l with
  | S fuel', _ :: _ => take size l :: chunks fuel' size (drop size l)
  | _, _ => []
  end.

(** The message schedule, most recent word first. *)
Fixpoint schedule (n : nat) (rev_ws : list Z) : list Z :=
  match n with
  | O => rev_ws
  | S n' =>
      let w i := nth i rev_ws 0 in
      let x := Z.lxor (Z.lxor (w 2%nat) (w 7%nat)) (Z.lxor (w 13%nat) (w 15%nat)) in
      schedule n' (rotl 1 x :: rev_ws)
  end.

Definition state : Type := Z * Z * Z * Z * Z.

Definition round (st : state) (iw : nat * Z) : state :=
  let '(a, b, c, d, e) := st in
  let '(i, w) := iw in
  let '(f, k) :=
    if (i <? 20)%nat then
      (Z.lor (Z.land b c) (Z.land (Z.lxor b 0xFFFFFFFF) d), 0x5A827999)
    else if (i <? 40)%nat then
      (Z.lxor (Z.lxor b c) d, 0x6ED9EBA1)
    else if (i <? 60)%nat then
      (Z.lor (Z.lor (Z.land b c) (Z.land b d)) (Z.land c d), 0x8F1BBCDC)
    else
      (Z.lxor (Z.lxor b c) d, 0xCA62C1D6) in
  (w32 (rotl 5 a + f + e + k + w), a, rotl 30 b, c, d).

Definition compress (h : state) (block : list Z) : state :=
  let ws := rev (schedule 64 (rev (map be_word (chunks 16 4 block)))) in
  let '(a, b, c, d, e) := fold_left round (combine (seq 0 80) ws) h in
  let '(h0, h1, h2, h3, h4) := h in
  (w32 (h0 + a), w32 (h1 + b), w32 (h2 + c), w32 (h3 + d), w32 (h4 + e)).

Definition init : state :=
  (0x67452301, 0xEFCDAB89, 0x98BADCFE, 0x10325476, 0xC3D2E1F0).

Definition digest (msg : list Z) : state :=
  let padded := pad msg in
  fold_left compress (chunks (length padded) 64 padded) init.

Definition hex_digit (n : Z) : ascii :=
  ascii_of_nat (Z.to_nat (if n <? 10 then 48 + n else 87 + n)).

Definition hex_word (x : Z) : str :=
  map (fun i => hex_digit (Z.shiftr x (4 * Z.of_nat i) mod 16)) (rev (seq 0 8)).

Definition hexdigest (msg : list Z) : str :=
  let '(h0, h1, h2, h3, h4) := digest msg in
  hex_word h0 ++ hex_word h1 ++ hex_word h2 ++ hex_word h3 ++ hex_word h4.
End SHA1.

(** [s.encode('utf-8')] for code points below 256: one byte below 128,
    two bytes from 128 on. *)
Definition encode_utf8 (s : str) : list Z :=
  flat_map (fun c =>
    let n := Z.of_nat (code c) in
    if (n <? 128)%Z then [n] else [192 + n / 64; 128 + n mod 64]%Z) s.

(** [to_hash] reads [self.content] only; on a [Highlight] without
    content the call of [encode] on [None] is an [AttributeError]. *)
Definition to_hash (h : Highlight) : result str :=
  match content h with
  | Some c => Ok (SHA1.hexdigest (encode_utf8 c))
  | None => Raise AttributeError
  end.


(** ** Books and the aggregation loop of [process] *)

Definition HIGHLIGHT_SEPARATOR : str := txt "==========".

(** A [Book] object.  Its author is the [author] attribute of the
    [Highlight] it was created from. *)
Record Book := mk_Book {
  book_title : str;
  book_author : option str;
  highlights : list Highlight
}.

(** [Book.__init__] without its effect on [Book.book_titles], which
    [aggregate_step] performs. *)
Definition new_book (title : str) (author : option str) : Book :=
  mk_Book (tidy_title title) author [].

(** [Book.add_highlight]: a [Highlight] object is always true. *)
Definition add_highlight (b : Book) (h : Highlight) : Book :=
  mk_Book (book_title b) (book_author b) (highlights b ++ [h]).

(** The class attribute [Book.book_titles] and the local [library]. *)
Record agg_state := mk_state {
  book_titles : gset str;
  library : list Book
}.

Definition initial_state : agg_state := mk_state ∅ [].

(** [b.title == h.title], where [h.title] may be [None]. *)
Definition same_title (b : Book) (h : Highlight) : bool :=
  bool_decide (Some (book_title b) = title h).

(** The body of the inner loop over the library. *)
Definition add_to_same_title (h : Highlight) (b : Book) : Book :=
  if same_title b h then add_highlight b h else b.

(** The body of the loop over the blocks, after [h = Highlight(raw_str)]:
    a new Book when the title is not [None] and not yet known, the inner
    loop otherwise. *)
Definition aggregate_step (st : agg_state) (h : Highlight) : agg_state :=
  match title h with
  | Some t =>
      if bool_decide (t ∉ book_titles st) then
        let b := new_book t (author h) in
        mk_state ({[ book_title b ]} ∪ book_titles st)
                 (library st ++ [add_highlight b h])
      else
        mk_state (book_titles st) (add_to_same_title h <$> library st)
  | None =>
      mk_state (book_titles st) (add_to_same_title h <$> library st)
  end.

(** The loop: an exception of [parse_highlight] ends it. *)
Fixpoint aggregate_blocks (st : agg_state) (blocks : list str) : result agg_state :=
  match blocks with
  | [] => mret st
  | raw_str :: rest =>
      h ← parse_highlight raw_str;
      aggregate_blocks (aggregate_step st h) rest
  end.

(** The second loop of [process]: the books handed to
    [write_book_to_supabase], in order. *)
Fixpoint write_books (processed_books : list str) (books : list Book) : list Book :=
  match books with
  | [] => []
  | book :: rest =>
      if truthy (book_title book) then
        if bool_decide (strip (book_title book) ∉ processed_books)
        then book :: write_books (processed_books ++ [strip (book_title book)]) rest
        else write_books processed_books rest
      else write_books processed_books rest
  end.

(** [process] on the contents of the clippings file: the library at the
    end of the first loop and the books written by the second. *)
Definition process (file_contents : str) : result (list Book * list Book) :=
  let highlights := split HIGHLIGHT_SEPARATOR file_contents in
  st ← aggregate_blocks initial_state highlights;
  mret (library st, write_books [] (library st)).

(** ** Notions used in the statements *)

(** Neither the first nor the last character would be stripped. *)
Definition ends_kept (d : ascii → bool) (s : str) : Prop :=
  (∀ c s', s = c :: s' → d c = false)
  ∧ (∀ c s', rev s = c :: s' → d c = false).

(** A line: a string without line break. *)
Definition one_line (l : str) : bool :=
  forallb (fun c => negb (Ascii.eqb c "010")) l.

(** A token: a string without white space. *)
Definition token (t : str) : bool := forallb (fun c => negb (isspace c)) t.

(** A number: a string of decimal digits. *)
Definition digits (t : str) : bool := forallb isdigit t.

(** The Highlights of the blocks, in order, when no block raises. *)
Fixpoint parse_all (blocks : list str) : result (list Highlight) :=
  match blocks with
  | [] => mret []
  | raw_str :: rest =>
      h ← parse_highlight raw_str;
      hs ← parse_all rest;
      mret (h :: hs)
  end.

(** The titles of the Highlights that have one, in order. *)
Definition titles_of (hs : list Highlight) : list str := omap title hs.

(** The distinct elements of a list in the order of their first
    occurrence. *)
Fixpoint first_seen (ts : list str) : list str :=
  match ts with
  | [] => []
  | t :: ts' => t :: filter (λ u, u ≠ t) (first_seen ts')
  end.

(** The title of a Highlight, when it has one, is a normalised title. *)
Definition normal_title (h : Highlight) : Prop :=
  ∀ t, title h = Some t → tidy_title t = t.

(** The state of the loop after the Highlights [seen]: the known titles
    are those of the library, the Books are in the order in which their
    titles came first, and each Book holds the Highlights of its title in
    the order in which they came. *)
Record agg_inv (st : agg_state) (seen : list Highlight) : Prop := mk_inv {
  inv_titles : ∀ t, t ∈ book_titles st ↔ t ∈ book_title <$> library st;
  inv_order : book_title <$> library st = first_seen (titles_of seen);
  inv_highlights : ∀ b, b ∈ library st →
    highlights b = filter (λ h, title h = Some (book_title b)) seen
}.

(** Every opening bracket has a closing bracket somewhere after it. *)
Fixpoint brackets_closed (s : str) : bool :=
  match s with
  | [] => true
  | c :: s' =>
      (if Ascii.eqb c "("%char then existsb (Ascii.eqb ")"%char) s' else true)
      && brackets_closed s'
  end.

(** ** Sample blocks and files *)

Definition great_book_claimed : Highlight :=
  full "The Great Book" "Jane Author" "Highlight" "120-121"
    "24/10/18 22:25:36" "This is the highlighted text.".

(** The second line has no date separator. *)
Definition block_without_date : str :=
  lines [ "The Great Book (Jane Author)";
          "- Your Highlight on Location 120-121";
          "";
          "This is the highlighted text.";
          "" ]%string.


Definition page_location_block : str :=
  lines [ "The Great Book (Jane Author)";
          "- Your Note on page 57 | Location 866 | Added on Wednesday, October 24, 2018 10:25:36 PM";
          "";
          "A note.";
          "" ]%string.

(** A block that follows a separator: its first line is empty, and four
    lines remain once that line is dropped. *)
Definition block_after_separator : str :=
  lines [ "";
          "The Great Book (Jane Author)";
          "- Your Bookmark on Location 120 | Added on Wednesday, October 24, 2018 10:25:36 PM";
          "";
          "" ]%string.

Definition three_line_block : str :=
  lines [ "The Great Book (Jane Author)";
          "- Your Highlight on Location 120-121 | Added on Wednesday, October 24, 2018 10:25:36 PM";
          "" ]%string.

Definition bookmark_at_lines : list string :=
  [ "The Great Book (Jane Author)";
    "- Your Bookmark at Location 77 | Added on Wednesday, October 24, 2018 10:25:36 PM";
    "";
    "";
    "" ]%string.

Definition bookmark_at_block : str := lines bookmark_at_lines.

(** A file of one block whose title has no character that the
    normalisation keeps. *)
Definition starred_title_file : str :=
  lines [ "*** (Jane Author)";
          "- Your Highlight on Location 120-121 | Added on Wednesday, October 24, 2018 10:25:36 PM";
          "";
          "This is the highlighted text.";
          "" ]%string.

Definition clipping_block (title_line text : string) : str :=
  lines [ title_line;
          "- Your Highlight on Location 120-121 | Added on Wednesday, October 24, 2018 10:25:36 PM";
          "";
          text;
          "" ]%string ++ nl.

(** A file of three blocks, the first and the third of the same book
    under two spellings of its title, then the empty end of the file. *)
Definition two_books_file : str :=
  clipping_block "The Great Book (Jane Author)" "First."
  ++ HIGHLIGHT_SEPARATOR ++ clipping_block "Another Book (John Writer)" "Second."
  ++ HIGHLIGHT_SEPARATOR ++ clipping_block "The Great Book! (Jane Author)" "Third."
  ++ HIGHLIGHT_SEPARATOR ++ nl.

(** A file of four blocks: one whose title has no character that the
    normalisation keeps, one of four lines, which is too short to be
    parsed, one of another book, then the empty end of the file. *)
Definition starred_and_short_file : str :=
  clipping_block "*** (Jane Author)" "First."
  ++ HIGHLIGHT_SEPARATOR ++ nl ++ three_line_block
  ++ HIGHLIGHT_SEPARATOR ++ nl ++ clipping_block "The Great Book (Jane Author)" "Second."
  ++ HIGHLIGHT_SEPARATOR ++ nl.

(** ** [convert_date_to_iso]

    [strptime] with [OUTPUT_DATE_FORMAT], which is [%d/%m/%y %H:%M:%S],
    and [isoformat]. *)

Section OutputDirectives.
Context {R : Type}.

(** [%m]: 1[0-2]|0[1-9]|[1-9] *)
Definition m_m (k : nat -> @cont R) : cont :=
  m_alt (m_digit2 1 1 0 2 k) (m_alt (m_digit2 0 0 1 9 k) (m_digit 1 9 k)).

(** [%y]: \d\d *)
Definition m_y (k : nat -> @cont R) : cont := m_digit2 0 9 0 9 k.
End OutputDirectives.

Record output_groups := mk_output_groups {
  o_d : nat; o_m : nat; o_y : nat;
  o_H : nat; o_M : nat; o_S : nat;
  o_rest : str
}.

(** [format_regex.match(data_string)] for the output format. *)
Definition match_output_format : str -> option output_groups :=
  m_d (fun d =>
  m_lit "/" (
  m_m (fun m =>
  m_lit "/" (
  m_y (fun y =>
  m_spaces (
  m_H (fun H =>
  m_lit ":" (
  m_M (fun M =>
  m_lit ":" (
  m_S (fun S rest =>
  Some (mk_output_groups d m y H M S rest)))))))))))).

(** The year of a two-digit year: 69-99 are 1969-1999 and 0-68 are
    2000-2068. *)
Definition two_digit_year (y : nat) : nat :=
  if y <=? 68 then 2000 + y else 1900 + y.

(** [datetime.strptime(datestring, OUTPUT_DATE_FORMAT)]. *)
Definition strptime_output (datestring : str) : result datetime :=
  match match_output_format datestring with
  | None => Raise ValueError
  | Some g =>
      let y := two_digit_year (o_y g) in
      if negb (length (o_rest g) =? 0) then Raise ValueError
      else if (days_in_month y (o_m g) <? o_d g) then Raise ValueError
      else if (59 <? o_S g) then Raise ValueError
      else Ok (mk_datetime y (o_m g) (o_d g) (o_H g) (o_M g) (o_S g))
  end.

(** [isoformat] of a [datetime] without microseconds and time zone:
    YYYY-MM-DDTHH:MM:SS. *)
Definition isoformat (t : datetime) : str :=
  two_digits (year t / 100) ++ two_digits (year t) ++ txt "-"
  ++ two_digits (month t) ++ txt "-" ++ two_digits (day t) ++ txt "T"
  ++ two_digits (hour t) ++ txt ":" ++ two_digits (minute t) ++ txt ":"
  ++ two_digits (second t).

Definition convert_date_to_iso (datestring : str) : result str :=
  t ← strptime_output datestring;
  mret (isoformat t).

(** ** [Book.write_book_to_supabase]

    The table [clippings] of the remote store is a list of rows.  A
    select with the filter [hash eq h] returns the rows with that hash,
    and an insert adds a row at the end.  The progress messages that the
    method prints are left out. *)

Record row := mk_row {
  row_hash : str;
  row_title : str;
  row_author : option str;
  row_highlight_type : option str;
  row_main_loc : option str;
  row_content : option str;
  row_timestamp : str
}.

(** The exceptions of the parser, and the [TypeError] of [strptime] on a
    date that is [None]. *)
Inductive error := Builtin (e : exn) | TypeError.

Inductive outcome (A : Type) :=
  | Returns (a : A)
  | Raises (e : error).
Arguments Returns {A} a.
Arguments Raises {A} e.

Definition select_hash (table : list row) (h : str) : list row :=
  filter (λ r, row_hash r = h) table.

(** The body of the loop over the highlights of a book. *)
Definition write_highlight (b : Book) (table : list row) (h : Highlight)
  : outcome (list row) :=
  match to_hash h with
  | Raise e => Raises (Builtin e)
  | Ok highlight_hash =>
      if length (select_hash table highlight_hash) =? 0 then
        match date h with
        | None => Raises TypeError
        | Some d =>
            match convert_date_to_iso d with
            | Raise e => Raises (Builtin e)
            | Ok timestamp =>
                Returns (table ++
                  [mk_row highlight_hash (book_title b) (book_author b)
                     (highlight_type h) (main_loc h) (content h) timestamp])
            end
        end
      else Returns table
  end.

Fixpoint write_highlights (b : Book) (table : list row) (hs : list Highlight)
  : outcome (list row) :=
  match hs with
  | [] => Returns table
  | h :: rest =>
      match write_highlight b table h with
      | Returns table' => write_highlights b table' rest
      | Raises e => Raises e
      end
  end.

Definition write_book_to_supabase (b : Book) (table : list row)
  : outcome (list row) :=
  write_highlights b table (highlights b).

(** The calls of [write_book_to_supabase] in the second loop of
    [process], one for each book that [write_books] lets through. *)
Fixpoint write_library (table : list row) (books : list Book)
  : outcome (list row) :=
  match books with
  | [] => Returns table
  | b :: rest =>
      match write_book_to_supabase b table with
      | Returns table' => write_library table' rest
      | Raises e => Raises e
      end
  end.

(** A [datetime] as [strptime] returns it: the fields are in range. *)
Definition valid_datetime (t : datetime) : Prop :=
  1 ≤ month t ≤ 12 ∧ 1 ≤ day t ≤ days_in_month (year t) (month t)
  ∧ hour t ≤ 23 ∧ minute t ≤ 59 ∧ second t ≤ 59.

(** A Book with two Highlights of the same content. *)
Definition book_with_repeat : Book :=
  mk_Book (txt "The Great Book") (Some (txt "Jane Author"))
    [full "The Great Book" "Jane Author" "Highlight"
       "Location 120-121" "24/10/18 10:25:36" "First.";
     full "The Great Book" "Jane Author" "Highlight"
       "Location 300" "25/10/18 08:00:00" "First."].

(** The names of the days and of the months as the device writes them. *)
Definition english_day_names : list str :=
  map txt [ "Monday"; "Tuesday"; "Wednesday"; "Thursday"; "Friday";
            "Saturday"; "Sunday" ]%string.

Definition english_month_names : list str :=
  map txt [ "January"; "February"; "March"; "April"; "May"; "June"; "July";
            "August"; "September"; "October"; "November"; "December" ]%string.

(** A date in the verbose form, with two digits for the day and for the
    hour. *)
Definition verbose_date (wd mo : str) (d y H M S : nat) (ampm : str) : str :=
  wd ++ txt ", " ++ mo ++ txt " " ++ two_digits d ++ txt ", "
  ++ two_digits (y / 100) ++ two_digits y ++ txt " "
  ++ two_digits H ++ txt ":" ++ two_digits M ++ txt ":" ++ two_digits S
  ++ txt " " ++ ampm.

(** * Properties *)
Example tidy_date_ex :
  tidy_date (txt "Wednesday, October 24, 2018 10:25:36 PM") = Ok (txt "24/10/18 10:25:36").
Proof. vm_compute. reflexivity. Qed.

Example great_book_parse :
  parse_highlight great_book_block =
  Ok (full "The Great Book" "Jane Author" "Highlight" "Location 120-121"
        "24/10/18 10:25:36" "This is the highlighted text.").
Proof. vm_compute. reflexivity. Qed.

Example sha1_abc :
  SHA1.hexdigest (encode_utf8 (txt "abc")) = txt "a9993e364706816aba3e25717850c26c9cd0d89d".
Proof. vm_compute. reflexivity. Qed.

Example sha1_empty :
  SHA1.hexdigest (encode_utf8 []) = txt "da39a3ee5e6b4b0d3255bfef95601890afd80709".
Proof. vm_compute. reflexivity. Qed.

Example sha1_two_blocks :
  SHA1.hexdigest (encode_utf8
    (txt "abcdbcdecdefdefgefghfghighijhijkijkljklmklmnlmnomnopnopq"))
  = txt "84983e441c3bd26ebaae4aa1f95129e5e54670f1".
Proof. vm_compute. reflexivity. Qed.

(** ** The scans of [split], [count] and [replace] *)

Section Scan.
Variable sep : str.
Hypothesis sep_nonempty : sep ≠ [].

Lemma split_from_skip k s : split_from sep k s = split sep (drop k s).
Proof.
  revert k. induction s as [|c s IH]; intros [|k]; simpl; try reflexivity.
  apply IH.
Qed.

Lemma count_from_skip k s : count_from sep k s = count sep (drop k s).
Proof.
  revert k. induction s as [|c s IH]; intros [|k]; simpl; try reflexivity.
  apply IH.
Qed.

Lemma startswith_app (p s : str) : startswith p s = true → s = p ++ drop (length p) s.
Proof.
  revert s. induction p as [|a p IH]; intros [|b s]; simpl; try done.
  intros [Hab Hps]%andb_prop. apply Ascii.eqb_eq in Hab as ->.
  f_equal. by apply IH.
Qed.

Lemma startswith_refl_app (p s : str) : startswith p (p ++ s) = true.
Proof.
  induction p as [|a p IH]; simpl; [done|].
  by rewrite Ascii.eqb_refl.
Qed.

Lemma drop_sep (c : ascii) (s : str) : drop (length sep - 1) s = drop (length sep) (c :: s).
Proof. destruct sep; [done|]. simpl. by rewrite Nat.sub_0_r. Qed.

(** The equations of the scan, one step at a time. *)
Lemma split_nil : split sep [] = [[]].
Proof. reflexivity. Qed.

Lemma split_match c s :
  startswith sep (c :: s) = true →
  split sep (c :: s) = [] :: split sep (drop (length sep) (c :: s)).
Proof.
  intros H. unfold split at 1. simpl split_from. rewrite H.
  by rewrite split_from_skip, (drop_sep c).
Qed.

Lemma split_no_match c s :
  startswith sep (c :: s) = false →
  split sep (c :: s) = cons_head c (split sep s).
Proof. intros H. unfold split at 1. simpl split_from. by rewrite H. Qed.

Lemma count_match c s :
  startswith sep (c :: s) = true →
  count sep (c :: s) = S (count sep (drop (length sep) (c :: s))).
Proof.
  intros H. unfold count at 1. simpl count_from. rewrite H.
  by rewrite count_from_skip, (drop_sep c).
Qed.

Lemma count_no_match c s :
  startswith sep (c :: s) = false → count sep (c :: s) = count sep s.
Proof. intros H. unfold count at 1. simpl count_from. by rewrite H. Qed.

Lemma split_nonempty s : split sep s ≠ [].
Proof.
  destruct s as [|c s]; [done|].
  destruct (startswith sep (c :: s)) eqn:H.
  - by rewrite split_match.
  - rewrite split_no_match by done. by destruct (split sep s).
Qed.

Lemma join_cons p ps : ps ≠ [] → join sep (p :: ps) = p ++ sep ++ join sep ps.
Proof. by destruct ps. Qed.

Lemma join_cons_head c ps : ps ≠ [] → join sep (cons_head c ps) = c :: join sep ps.
Proof. destruct ps as [|p [|q ps]]; done. Qed.

Lemma length_cons_head c (ps : list str) :
  ps ≠ [] → length (cons_head c ps) = length ps.
Proof. by destruct ps. Qed.

(** The pieces are one more than the occurrences, and putting the
    separator back between them gives the string again. *)
Lemma split_count_join s :
  length (split sep s) = count sep s + 1 ∧ join sep (split sep s) = s.
Proof.
  remember (length s) as n eqn:Hn. revert s Hn.
  induction n as [n IH] using lt_wf_ind. intros [|c s] Hn; [done|].
  destruct (startswith sep (c :: s)) eqn:H.
  - rewrite split_match, count_match by done.
    destruct (IH (length (drop (length sep) (c :: s)))
                 ltac:(rewrite length_drop; subst n; destruct sep; simpl in *; [done|lia])
                 _ eq_refl) as [IH1 IH2].
    split; [simpl; lia|].
    rewrite join_cons by apply split_nonempty. rewrite IH2. simpl.
    symmetry. by apply startswith_app.
  - rewrite split_no_match, count_no_match by done.
    destruct (IH (length s) ltac:(subst n; simpl; lia) _ eq_refl) as [IH1 IH2].
    rewrite length_cons_head, join_cons_head by apply split_nonempty.
    split; [done|]. by rewrite IH2.
Qed.
End Scan.

Lemma separator_nonempty : HIGHLIGHT_SEPARATOR ≠ [].
Proof. done. Qed.

(** C7: the splitter of [process].  A file content with N occurrences of
    the separator, counted from the left without overlap as [str.count]
    does, splits into N+1 blocks, and joining the blocks with the
    separator gives the file content again: no block is lost, moved or
    merged. *)
Theorem split_separator_blocks (file_contents : str) :
  length (split HIGHLIGHT_SEPARATOR file_contents)
    = count HIGHLIGHT_SEPARATOR file_contents + 1
  ∧ join HIGHLIGHT_SEPARATOR (split HIGHLIGHT_SEPARATOR file_contents)
    = file_contents.
Proof. apply split_count_join, separator_nonempty. Qed.

(** ** Stripping at both ends *)

Section Strip.
Variable drop_it : ascii → bool.

Lemma lstrip_with_head s c s' :
  lstrip_with drop_it s = c :: s' → drop_it c = false.
Proof.
  induction s as [|a s IH]; simpl; [done|].
  destruct (drop_it a) eqn:Ha; [done|]. by intros [= <- _].
Qed.

Lemma lstrip_with_fix s :
  (∀ c s', s = c :: s' → drop_it c = false) → lstrip_with drop_it s = s.
Proof.
  destruct s as [|a s]; simpl; [done|].
  intros H. by rewrite (H a s eq_refl).
Qed.

Lemma lstrip_with_suffix s : ∃ p, s = p ++ lstrip_with drop_it s.
Proof.
  induction s as [|a s [p IH]]; simpl; [by exists []|].
  destruct (drop_it a); [|by exists []].
  exists (a :: p). simpl. by f_equal.
Qed.

Lemma lstrip_with_Forall (P : ascii → Prop) s :
  Forall P s → Forall P (lstrip_with drop_it s).
Proof.
  induction 1 as [|a s Ha Hs IH]; simpl; [done|].
  destruct (drop_it a); [done|]. by constructor.
Qed.

Lemma strip_with_Forall (P : ascii → Prop) s :
  Forall P s → Forall P (strip_with drop_it s).
Proof.
  intros H. unfold strip_with, rstrip_with.
  by apply List.Forall_rev, lstrip_with_Forall, List.Forall_rev, lstrip_with_Forall.
Qed.

Lemma strip_with_ends s : ends_kept drop_it (strip_with drop_it s).
Proof.
  unfold strip_with, rstrip_with.
  set (t := lstrip_with drop_it s).
  destruct (lstrip_with_suffix (rev t)) as [p Hp].
  set (u := lstrip_with drop_it (rev t)) in *.
  split.
  - intros c s' Hu.
    assert (t = c :: s' ++ rev p) as Ht.
    { rewrite <- (rev_involutive t), Hp, rev_app_distr, Hu. done. }
    by apply (lstrip_with_head s c (s' ++ rev p)).
  - intros c s'. rewrite rev_involutive. apply lstrip_with_head.
Qed.

Lemma strip_with_fix s : ends_kept drop_it s → strip_with drop_it s = s.
Proof.
  intros [Hhd Hlast]. unfold strip_with, rstrip_with.
  rewrite (lstrip_with_fix s) by done.
  rewrite (lstrip_with_fix (rev s)) by done.
  apply rev_involutive.
Qed.

Lemma strip_with_idem s :
  strip_with drop_it (strip_with drop_it s) = strip_with drop_it s.
Proof. apply strip_with_fix, strip_with_ends. Qed.
End Strip.

Lemma ends_kept_weaken (d1 d2 : ascii → bool) s :
  (∀ c, d2 c = true → d1 c = true) → ends_kept d1 s → ends_kept d2 s.
Proof.
  intros Hd [H1 H2]. split; intros c s' Hs.
  - specialize (H1 c s' Hs). destruct (d2 c) eqn:E; [|done].
    apply Hd in E. congruence.
  - specialize (H2 c s' Hs). destruct (d2 c) eqn:E; [|done].
    apply Hd in E. congruence.
Qed.

Lemma filter_fix {A} (f : A → bool) l :
  Forall (λ x, f x = true) l → List.filter f l = l.
Proof. induction 1 as [|x l Hx _ IH]; simpl; [done|]. by rewrite Hx, IH. Qed.

Lemma filter_Forall {A} (f : A → bool) l :
  Forall (λ x, f x = true) (List.filter f l).
Proof.
  induction l as [|x l IH]; simpl; [done|].
  destruct (f x) eqn:E; [by constructor|done].
Qed.

Lemma space_not_word c : isspace c = true → negb (isword c) = true.
Proof. destruct c as [[] [] [] [] [] [] [] []]; vm_compute; done. Qed.

(** ** Title normalisation *)

Lemma tidy_title_chars s : Forall (λ c, title_char c = true) (tidy_title s).
Proof. apply strip_with_Forall, filter_Forall. Qed.

Lemma tidy_title_ends s : ends_kept (λ c, negb (isword c)) (tidy_title s).
Proof. apply strip_with_ends. Qed.

(** C8: [tidy_title] is idempotent: a normalised title is left as it is. *)
Theorem tidy_title_idempotent (s : str) :
  tidy_title (tidy_title s) = tidy_title s.
Proof.
  unfold tidy_title at 1.
  rewrite filter_fix by apply tidy_title_chars.
  apply strip_with_fix, tidy_title_ends.
Qed.

(** A normalised title has no white space to strip at its ends. *)
Lemma strip_tidy_title s : strip (tidy_title s) = tidy_title s.
Proof.
  apply strip_with_fix.
  eapply ends_kept_weaken; [apply space_not_word|apply tidy_title_ends].
Qed.

(** ** The example block *)

(** C1, as the code has it: the example block parses to title "The Great
    Book", author "Jane Author", kind "Highlight", location "Location
    120-121" (the word Location stays in front of the range), a
    timestamp of the form 24/10/18 HH:25:36 and the content "This is the
    highlighted text.". *)
Theorem great_book_fields :
  ∃ HH : str,
    length HH = 2
    ∧ parse_highlight great_book_block
      = Ok (mk_Highlight (Some (txt "The Great Book")) (Some (txt "Jane Author"))
              (Some (txt "Highlight")) (Some (txt "Location 120-121"))
              (Some (txt "24/10/18 " ++ HH ++ txt ":25:36"))
              (Some (txt "This is the highlighted text."))).
Proof. exists (txt "10"). split; [reflexivity|]. vm_compute. reflexivity. Qed.

(** C1, as the specification has it, fails: the result is not the
    Clipping with location "120-121" and timestamp "24/10/18 22:25:36". *)
Lemma great_book_not_as_claimed :
  parse_highlight great_book_block ≠ Ok great_book_claimed.
Proof. vm_compute. discriminate. Qed.

(** ** Blocks on which the parser raises *)


(** C10: there is a block of five lines, with an author group in its
    first line and the date separator in its second, whose descriptor
    has no " on ", and on it [get_type_and_location] raises [IndexError]
    and so does [parse_highlight]. *)
Theorem bookmark_at_raises :
  ∃ (raw book_details highlight_details descriptor : str),
    5 ≤ length (split nl raw)
    ∧ split nl raw !! 0 = Some book_details
    ∧ is_Some (search_author book_details)
    ∧ split nl raw !! 1 = Some highlight_details
    ∧ count (txt " | Added on ") highlight_details = 1
    ∧ split (txt " | Added on ") highlight_details !! 0 = Some descriptor
    ∧ count (txt " on ") descriptor = 0
    ∧ get_type_and_location descriptor = Raise IndexError
    ∧ parse_highlight raw = Raise IndexError.
Proof.
  exists bookmark_at_block, (txt "The Great Book (Jane Author)"),
    (txt "- Your Bookmark at Location 77 | Added on Wednesday, October 24, 2018 10:25:36 PM"),
    (txt "- Your Bookmark at Location 77").
  split_and!; try (vm_compute; reflexivity).
  eexists. vm_compute. reflexivity.
Qed.

(** C3, as the specification has it, fails: on the page-and-location
    block the location is "Location 866", not the bare range "866". *)
Lemma page_location_not_bare_range :
  ∃ h, parse_highlight page_location_block = Ok h
       ∧ main_loc h = Some (txt "Location 866")
       ∧ main_loc h ≠ Some (txt "866").
Proof. eexists. split; [vm_compute; reflexivity|]. split; [reflexivity|discriminate]. Qed.

(** C4, as the specification has it, fails: a block with an empty first
    line and four more lines is parsed, it is not rejected as too short. *)
Lemma four_lines_after_separator_parsed :
  length (drop_separator_line (split nl block_after_separator)) = 4
  ∧ parse_highlight block_after_separator
    = Ok (full "The Great Book" "Jane Author" "Bookmark" "Location 120"
            "24/10/18 10:25:36" "").
Proof. split; vm_compute; reflexivity. Qed.

(** C6, as the specification has it, fails: a Clipping whose normalised
    title is empty gets a Book of its own in the library and is appended
    to it. *)
Lemma empty_title_gets_a_book :
  ∃ lib written b h,
    process starred_title_file = Ok (lib, written)
    ∧ b ∈ lib ∧ book_title b = []
    ∧ h ∈ highlights b ∧ title h = Some [].
Proof.
  eexists _, _, _, _. split; [vm_compute; reflexivity|].
  split; [apply list_elem_of_here|]. split; [reflexivity|].
  split; [apply list_elem_of_here|reflexivity].
Qed.

(** ** The content hash *)

(** C9: the hash is a function of the content alone: two Highlights with
    the same content have the same hash, whatever their other fields. *)
Theorem to_hash_content_only (h1 h2 : Highlight) :
  content h1 = content h2 → to_hash h1 = to_hash h2.
Proof. unfold to_hash. by intros ->. Qed.

Lemma to_hash_content_only_witness :
  content great_book_claimed
    = content (full "Another Book" "John Writer" "Note" "Location 7"
                 "01/01/19 00:00:00" "This is the highlighted text.")
  ∧ to_hash great_book_claimed
    = to_hash (full "Another Book" "John Writer" "Note" "Location 7"
                 "01/01/19 00:00:00" "This is the highlighted text.").
Proof.
  split; [reflexivity|].
  apply (to_hash_content_only great_book_claimed
           (full "Another Book" "John Writer" "Note" "Location 7"
              "01/01/19 00:00:00" "This is the highlighted text.")).
  reflexivity.
Defined.

(** ** First occurrences *)

Lemma elem_of_first_seen u ts : u ∈ first_seen ts ↔ u ∈ ts.
Proof.
  induction ts as [|t ts IH]; simpl; [done|].
  rewrite !elem_of_cons, list_elem_of_filter, IH.
  destruct (decide (u = t)); tauto.
Qed.

Lemma NoDup_first_seen ts : NoDup (first_seen ts).
Proof.
  induction ts as [|t ts IH]; simpl; constructor.
  - rewrite list_elem_of_filter. by intros [Hne _].
  - by apply NoDup_filter.
Qed.

Lemma first_seen_snoc ts t :
  first_seen (ts ++ [t]) = first_seen ts ++ (if decide (t ∈ ts) then [] else [t]).
Proof.
  induction ts as [|a ts IH]; simpl.
  - destruct (decide (t ∈ [])) as [Hin|_]; [|done]. by apply not_elem_of_nil in Hin.
  - rewrite IH, filter_app. f_equal. f_equal.
    destruct (decide (t ∈ ts)) as [Hin|Hnin];
      destruct (decide (t ∈ a :: ts)) as [Hin'|Hnin']; try done.
    + exfalso. apply Hnin'. by apply elem_of_cons; right.
    + apply elem_of_cons in Hin' as [->|Hin']; [|done].
      by rewrite filter_cons_False by (intros H; by apply H).
    + rewrite filter_cons_True; [done|].
      intros ->. apply Hnin', list_elem_of_here.
Qed.

(** ** The titles that the parser returns *)

Lemma bind_Ok {A B} (m : result A) (f : A → result B) b :
  m ≫= f = Ok b → ∃ a, m = Ok a ∧ f a = Ok b.
Proof. destruct m as [a|e]; [|done]. intros H. by exists a. Qed.

(** [H : mret a = Ok b] gives [a = b]. *)
Ltac ret_inv H := cbv [mret result_ret] in H; injection H as <-.

Lemma parse_lines_title ls h t :
  parse_lines ls = Ok h → title h = Some t → tidy_title t = t.
Proof.
  unfold parse_lines. intros H Ht.
  apply bind_Ok in H as (book_details & _ & H).
  destruct (search_author book_details) as [[start group1]|]; [|by ret_inv H].
  apply bind_Ok in H as (highlight_details & _ & H).
  destruct (truthy _); [|by ret_inv H].
  apply bind_Ok in H as (descriptor & _ & H).
  apply bind_Ok in H as (type_and_location & _ & H).
  apply bind_Ok in H as (date0 & _ & H).
  apply bind_Ok in H as (date1 & _ & H).
  ret_inv H. simpl in Ht. injection Ht as <-.
  rewrite strip_tidy_title. apply tidy_title_idempotent.
Qed.

Lemma parse_highlight_title raw h t :
  parse_highlight raw = Ok h → title h = Some t → tidy_title t = t.
Proof.
  unfold parse_highlight. destruct (_ <? 5).
  - intros H. by ret_inv H.
  - apply parse_lines_title.
Qed.

Lemma parse_all_titles blocks hs :
  parse_all blocks = Ok hs →
  Forall (λ h, ∀ t, title h = Some t → tidy_title t = t) hs.
Proof.
  revert hs. induction blocks as [|raw rest IH]; simpl; intros hs H.
  - ret_inv H. constructor.
  - apply bind_Ok in H as (h & Hh & H).
    apply bind_Ok in H as (hs' & Hhs & H). ret_inv H.
    constructor; [|by apply IH].
    intros t. by apply parse_highlight_title with raw.
Qed.

(** ** The aggregation loop *)

Lemma aggregate_blocks_parse_all st blocks :
  aggregate_blocks st blocks
  = hs ← parse_all blocks; mret (fold_left aggregate_step hs st).
Proof.
  revert st. induction blocks as [|raw rest IH]; intros st; simpl; [done|].
  destruct (parse_highlight raw) as [h|e]; simpl; [|done].
  rewrite IH. by destruct (parse_all rest).
Qed.

Lemma elem_of_titles_of t hs :
  t ∈ titles_of hs ↔ ∃ h, h ∈ hs ∧ title h = Some t.
Proof. apply list_elem_of_omap. Qed.

Lemma titles_of_snoc hs h :
  titles_of (hs ++ [h])
  = titles_of hs ++ match title h with Some t => [t] | None => [] end.
Proof. unfold titles_of. rewrite omap_app. simpl. by destruct (title h). Qed.

Lemma filter_none {A} (P : A → Prop) `{∀ x, Decision (P x)} (l : list A) :
  (∀ x, x ∈ l → ¬ P x) → filter P l = [].
Proof.
  induction l as [|x l IH]; intros Hl; [done|].
  rewrite filter_cons_False by (apply Hl, list_elem_of_here).
  apply IH. intros y Hy. apply Hl. by apply elem_of_cons; right.
Qed.

Lemma add_to_same_title_title h b :
  book_title (add_to_same_title h b) = book_title b.
Proof. unfold add_to_same_title. by destruct (same_title b h). Qed.

Lemma add_to_same_title_titles h (lib : list Book) :
  book_title <$> (add_to_same_title h <$> lib) = book_title <$> lib.
Proof.
  rewrite <- list_fmap_compose. apply list_fmap_ext.
  intros i b _. apply add_to_same_title_title.
Qed.

Lemma add_to_same_title_highlights h b :
  highlights (add_to_same_title h b)
  = highlights b ++ filter (λ h', title h' = Some (book_title b)) [h].
Proof.
  unfold add_to_same_title, same_title.
  destruct (decide (Some (book_title b) = title h)) as [E|E].
  - rewrite bool_decide_eq_true_2 by done. simpl.
    by rewrite filter_cons_True, filter_nil.
  - rewrite bool_decide_eq_false_2 by done.
    rewrite filter_cons_False, filter_nil by done. by rewrite app_nil_r.
Qed.

(** The inner loop keeps the invariant when the title of the Highlight
    is [None] or already known. *)
Lemma update_inv st seen h :
  agg_inv st seen →
  (∀ t, title h = Some t → t ∈ book_titles st) →
  agg_inv (mk_state (book_titles st) (add_to_same_title h <$> library st))
    (seen ++ [h]).
Proof.
  intros [Htitles Horder Hhl] Hknown. split; simpl.
  - intros u. by rewrite add_to_same_title_titles.
  - rewrite add_to_same_title_titles, titles_of_snoc, Horder.
    destruct (title h) as [t|]; [|by rewrite app_nil_r].
    rewrite first_seen_snoc, decide_True, app_nil_r; [done|].
    apply elem_of_first_seen. rewrite <- Horder. by apply Htitles, Hknown.
  - intros b' (b & -> & Hb)%list_elem_of_fmap.
    rewrite add_to_same_title_title, add_to_same_title_highlights, filter_app.
    by rewrite (Hhl b Hb).
Qed.

(** A Highlight with a new title adds a Book for it at the end. *)
Lemma new_book_inv st seen h t :
  agg_inv st seen → title h = Some t → tidy_title t = t →
  t ∉ book_titles st →
  agg_inv (mk_state ({[ book_title (new_book t (author h)) ]} ∪ book_titles st)
             (library st ++ [add_highlight (new_book t (author h)) h]))
    (seen ++ [h]).
Proof.
  intros [Htitles Horder Hhl] Ht Hnormal Hnew.
  assert (t ∉ titles_of seen) as Hunseen.
  { rewrite <- elem_of_first_seen, <- Horder, <- Htitles. done. }
  split; simpl; rewrite ?Hnormal.
  - intros u. rewrite fmap_app, elem_of_app, elem_of_union, elem_of_singleton.
    simpl. rewrite Hnormal, list_elem_of_singleton, Htitles. tauto.
  - rewrite fmap_app, titles_of_snoc, Ht, first_seen_snoc, Horder. simpl.
    by rewrite Hnormal, decide_False.
  - intros b [Hb| ->%list_elem_of_singleton]%elem_of_app.
    + rewrite filter_app, (Hhl b Hb), filter_cons_False, filter_nil, app_nil_r; [done|].
      rewrite Ht. intros [= ->]. apply Hnew, Htitles.
      apply list_elem_of_fmap. eauto.
    + simpl. rewrite Hnormal, filter_app, filter_cons_True, filter_nil by done.
      rewrite filter_none; [done|].
      intros h' Hh' Hth'. apply Hunseen, elem_of_titles_of. eauto.
Qed.

(** One more Highlight keeps the invariant of the loop. *)
Lemma aggregate_step_inv st seen h :
  agg_inv st seen → normal_title h →
  agg_inv (aggregate_step st h) (seen ++ [h]).
Proof.
  intros Hinv Hnormal. unfold aggregate_step.
  destruct (title h) as [t|] eqn:Ht.
  - destruct (decide (t ∈ book_titles st)) as [Hin|Hnin].
    + rewrite bool_decide_eq_false_2 by (by intros H).
      apply update_inv; [done|]. intros u. rewrite Ht. by intros [= <-].
    + rewrite bool_decide_eq_true_2 by done.
      apply new_book_inv; auto.
  - apply update_inv; [done|]. intros u. by rewrite Ht.
Qed.

Lemma initial_inv : agg_inv initial_state [].
Proof. split; simpl; [|done|]; intros x; [set_solver|by intros ?%not_elem_of_nil]. Qed.

Lemma fold_aggregate_inv hs st seen :
  agg_inv st seen → Forall normal_title hs →
  agg_inv (fold_left aggregate_step hs st) (seen ++ hs).
Proof.
  revert st seen. induction hs as [|h hs IH]; intros st seen Hinv Hn; simpl.
  - by rewrite app_nil_r.
  - apply Forall_cons in Hn as [Hh Hhs].
    rewrite (cons_middle h seen hs), app_assoc.
    apply IH; [|done]. by apply aggregate_step_inv.
Qed.

(** The library at the end of a run that raises nothing. *)
Lemma process_library file_contents lib written :
  process file_contents = Ok (lib, written) →
  ∃ hs st,
    parse_all (split HIGHLIGHT_SEPARATOR file_contents) = Ok hs
    ∧ agg_inv st hs ∧ Forall normal_title hs
    ∧ lib = library st ∧ written = write_books [] (library st).
Proof.
  unfold process. rewrite aggregate_blocks_parse_all. intros H.
  apply bind_Ok in H as (st & H & Hret). ret_inv Hret.
  apply bind_Ok in H as (hs & Hhs & Hst). ret_inv Hst.
  exists hs, (fold_left aggregate_step hs initial_state).
  pose proof (parse_all_titles _ _ Hhs) as Hn.
  split_and!; try done.
  apply (fold_aggregate_inv hs initial_state []); [apply initial_inv|done].
Qed.

(** C5: at the end of a run the library has exactly one Book for each
    title among the Highlights that were parsed with a title: the titles
    of the Books are these titles in the order in which they came first,
    none of them twice, and every Book holds the Highlights of its title
    in the order of the file. *)
Theorem one_book_per_title (file_contents : str) (lib written : list Book) :
  process file_contents = Ok (lib, written) →
  ∃ hs,
    parse_all (split HIGHLIGHT_SEPARATOR file_contents) = Ok hs
    ∧ book_title <$> lib = first_seen (titles_of hs)
    ∧ NoDup (book_title <$> lib)
    ∧ (∀ t, t ∈ book_title <$> lib ↔ ∃ h, h ∈ hs ∧ title h = Some t)
    ∧ (∀ b, b ∈ lib →
         highlights b = filter (λ h, title h = Some (book_title b)) hs).
Proof.
  intros (hs & st & Hhs & [Htitles Horder Hhl] & _ & -> & _)%process_library.
  exists hs. split_and!; try done.
  - rewrite Horder. apply NoDup_first_seen.
  - intros t. by rewrite Horder, elem_of_first_seen, elem_of_titles_of.
Qed.

Lemma one_book_per_title_witness :
  ∃ lib written,
    process two_books_file = Ok (lib, written)
    ∧ book_title <$> lib = [txt "The Great Book"; txt "Another Book"]
    ∧ NoDup (book_title <$> lib).
Proof.
  eexists _, _. split; [vm_compute; reflexivity|]. split; [reflexivity|].
  edestruct (one_book_per_title two_books_file) as (hs & _ & _ & Hnodup & _);
    [vm_compute; reflexivity|].
  exact Hnodup.
Defined.

(** ** The books that are written *)

Lemma truthy_title (t : str) : truthy t = bool_decide (t ≠ []).
Proof. by destruct t. Qed.

Lemma write_books_filter processed books :
  NoDup (book_title <$> books) →
  (∀ b, b ∈ books → strip (book_title b) = book_title b) →
  (∀ b, b ∈ books → book_title b ∉ processed) →
  write_books processed books = filter (λ b, book_title b ≠ []) books.
Proof.
  revert processed. induction books as [|book rest IH]; intros processed; [done|].
  rewrite fmap_cons, NoDup_cons. intros [Hfresh Hnodup] Hstrip Hnew. simpl.
  assert (write_books processed rest = filter (λ b, book_title b ≠ []) rest) as Hskip.
  { apply IH; [done| |]; intros b Hb; [apply Hstrip|apply Hnew];
      by apply elem_of_cons; right. }
  rewrite truthy_title, filter_cons.
  destruct (decide (book_title book ≠ [])) as [Hne|He].
  - rewrite bool_decide_eq_true_2 by done.
    rewrite (Hstrip book) by apply list_elem_of_here.
    rewrite bool_decide_eq_true_2 by apply Hnew, list_elem_of_here.
    f_equal. apply IH; [done| |].
    + intros b Hb. apply Hstrip. by apply elem_of_cons; right.
    + intros b Hb [Hin|Heq%list_elem_of_singleton]%elem_of_app.
      * apply (Hnew b); [by apply elem_of_cons; right|done].
      * apply Hfresh. rewrite <- Heq. apply list_elem_of_fmap. eauto.
  - by rewrite bool_decide_eq_false_2.
Qed.

(** C6, as the code has it: a Highlight without title, which is what a
    block that fails to parse gives, is in no Book, and no Book is made
    for it: every Book holds Highlights of its own title only, and at
    least one.  A Highlight with a title, the empty title included, is
    in the Book of that title, so a Book whose title is empty is in the
    library; it is skipped when the Books are written: the Books handed
    on for writing are the Books of the library with a non-empty title,
    in order. *)
Theorem untitled_left_out (file_contents : str) (lib written : list Book) :
  process file_contents = Ok (lib, written) →
  (∀ b h, b ∈ lib → h ∈ highlights b → title h = Some (book_title b))
  ∧ (∀ b, b ∈ lib → highlights b ≠ [])
  ∧ written = filter (λ b, book_title b ≠ []) lib
  ∧ ∃ hs,
      parse_all (split HIGHLIGHT_SEPARATOR file_contents) = Ok hs
      ∧ (∀ h, h ∈ hs → title h = None → ∀ b, b ∈ lib → h ∉ highlights b)
      ∧ (∀ b, b ∈ lib → ∃ h, h ∈ hs ∧ title h = Some (book_title b))
      ∧ (∀ h t, h ∈ hs → title h = Some t →
           ∃ b, b ∈ lib ∧ book_title b = t ∧ h ∈ highlights b
                ∧ (b ∈ written ↔ t ≠ []))
      ∧ (∀ h, h ∈ hs → title h = Some [] →
           ∃ b, b ∈ lib ∧ book_title b = [] ∧ h ∈ highlights b ∧ b ∉ written).
Proof.
  intros (hs & st & Hhs & [Htitles Horder Hhl] & Hn & -> & ->)%process_library.
  assert (∀ b, b ∈ library st → ∃ h, h ∈ hs ∧ title h = Some (book_title b))
    as Hfrom.
  { intros b Hb. apply elem_of_titles_of.
    rewrite <- elem_of_first_seen, <- Horder. apply list_elem_of_fmap. eauto. }
  assert (write_books [] (library st)
          = filter (λ b, book_title b ≠ []) (library st)) as Hwritten.
  { apply write_books_filter.
    - rewrite Horder. apply NoDup_first_seen.
    - intros b Hb. destruct (Hfrom b Hb) as (h & Hh & Ht).
      rewrite Forall_forall in Hn. rewrite <- (Hn h Hh _ Ht).
      apply strip_tidy_title.
    - intros b _. apply not_elem_of_nil. }
  assert (∀ h t, h ∈ hs → title h = Some t →
            ∃ b, b ∈ library st ∧ book_title b = t ∧ h ∈ highlights b
                 ∧ (b ∈ write_books [] (library st) ↔ t ≠ [])) as Hheld.
  { intros h t Hh Ht.
    assert (t ∈ book_title <$> library st) as (b & -> & Hb)%list_elem_of_fmap.
    { rewrite Horder, elem_of_first_seen, elem_of_titles_of. eauto. }
    exists b. split_and!; [done|done| |].
    - rewrite (Hhl b Hb). by apply list_elem_of_filter.
    - rewrite Hwritten, list_elem_of_filter. tauto. }
  split_and!.
  - intros b h Hb. rewrite (Hhl b Hb), list_elem_of_filter. by intros [? _].
  - intros b Hb. rewrite (Hhl b Hb).
    destruct (Hfrom b Hb) as (h & Hh & Ht).
    intros Hnil. eapply filter_nil_not_elem_of; [exact Hnil| |exact Hh]. done.
  - done.
  - exists hs. split_and!; [done| |done|done|].
    + intros h Hh Hnone b Hb. rewrite (Hhl b Hb), list_elem_of_filter.
      rewrite Hnone. by intros [? _].
    + intros h Hh Ht. destruct (Hheld h [] Hh Ht) as (b & Hb & Hbt & Hin & Hw).
      exists b. split_and!; try done. intros Hbw. by apply Hw in Hbw.
Qed.

Lemma untitled_left_out_witness :
  ∃ lib written,
    process starred_and_short_file = Ok (lib, written)
    ∧ book_title <$> lib = [ []; txt "The Great Book" ]
    ∧ book_title <$> written = [ txt "The Great Book" ]
    ∧ (∀ b, b ∈ lib → empty_set ∉ highlights b)
    ∧ ∃ b, b ∈ lib ∧ book_title b = [] ∧ b ∉ written.
Proof.
  eexists _, _. split; [vm_compute; reflexivity|]. split; [reflexivity|].
  edestruct (untitled_left_out starred_and_short_file)
    as (_ & _ & Hw & hs & Hhs & Hnone & _ & _ & Hempty);
    [vm_compute; reflexivity|].
  vm_compute in Hhs. injection Hhs as <-.
  split; [by rewrite Hw|]. split.
  - apply (Hnone empty_set); [|reflexivity].
    apply elem_of_cons; right. apply list_elem_of_here.
  - edestruct Hempty as (b & Hb & Hbt & _ & Hbw);
      [apply list_elem_of_here|reflexivity|].
    exists b. by split_and!.
Defined.

(** ** Blocks given by their lines *)

Lemma startswith_cons_ne a (p : str) c (s : str) :
  Ascii.eqb a c = false → startswith (a :: p) (c :: s) = false.
Proof. intros H. cbn [startswith]. by rewrite H. Qed.

Lemma startswith_cons a (p : str) c (s : str) :
  startswith (a :: p) (c :: s) = Ascii.eqb a c && startswith p s.
Proof. reflexivity. Qed.

Lemma split_line_rest l rest :
  one_line l = true → split nl (l ++ nl ++ rest) = l :: split nl rest.
Proof.
  assert (nl ≠ []) as Hnl by done.
  unfold one_line. induction l as [|c l IH]; cbn [app forallb]; intros Hl.
  - change (nl ++ rest) with ("010"%char :: rest). by rewrite split_match.
  - apply andb_prop in Hl as [Hc Hl].
    rewrite split_no_match, IH; try done.
    apply startswith_cons_ne. rewrite Ascii.eqb_sym. by apply negb_true_iff.
Qed.

Lemma split_line l : one_line l = true → split nl l = [l].
Proof.
  assert (nl ≠ []) as Hnl by done.
  unfold one_line. induction l as [|c l IH]; cbn [forallb]; intros Hl; [done|].
  apply andb_prop in Hl as [Hc Hl].
  rewrite split_no_match, IH; try done.
  apply startswith_cons_ne. rewrite Ascii.eqb_sym. by apply negb_true_iff.
Qed.

(** Splitting a block at the line breaks gives its lines back. *)
Lemma split_join_lines ls :
  ls ≠ [] → forallb one_line ls = true → split nl (join nl ls) = ls.
Proof.
  induction ls as [|l ls IH]; [done|]. intros _ Hls.
  apply andb_prop in Hls as [Hl Hls].
  destruct ls as [|l' ls]; [by apply split_line|].
  rewrite join_cons by done. rewrite split_line_rest by done.
  f_equal. by apply IH.
Qed.

(** The parser on lines of which the first has an author group and the
    second a date separator after a descriptor that is understood: what
    remains is the date. *)
Lemma parse_lines_dated (ls : list str) bd hd start group1
    descriptor raw_date (more : list str) k l :
  ls !! 0 = Some bd → ls !! 1 = Some hd →
  search_author bd = Some (start, group1) →
  split (txt " | Added on ") hd = descriptor :: raw_date :: more →
  get_type_and_location descriptor = Ok (k, l) →
  parse_lines ls
  = d ← tidy_date raw_date;
    mret (mk_Highlight (Some (strip (tidy_title (take start bd))))
            (Some (strip group1)) (Some (strip k)) (Some (strip l))
            (Some d) (Some (strip (join nl (slice_to_last 3 ls))))).
Proof.
  intros H0 H1 Ha Hsplit Htl. unfold parse_lines, index.
  rewrite H0. cbn [mbind result_bind]. rewrite Ha, H1.
  cbn [mbind result_bind]. rewrite Hsplit.
  cbn [truthy length Nat.eqb negb lookup list_lookup mbind result_bind].
  rewrite Htl. reflexivity.
Qed.

(** C4, as the code has it: the parser counts the lines of the block
    first, an empty first line included, and gives the failure value, the
    tuple of six [None], when they are fewer than 5; only then does it
    drop an empty first line, and no other first line, and parse what
    remains, which may be 4 lines: after an empty first line the title
    and the author are read from the second line of the block and the
    date from the third.  A block of 3 lines gives the failure value. *)
Theorem length_check_before_dropping (ls : list str) :
  ls ≠ [] → forallb one_line ls = true →
  (length ls = 3 → parse_highlight (join nl ls) = Ok empty_set)
  ∧ (length ls < 5 → parse_highlight (join nl ls) = Ok empty_set)
  ∧ (5 ≤ length ls →
       parse_highlight (join nl ls) = parse_lines (drop_separator_line ls)
       ∧ 4 ≤ length (drop_separator_line ls))
  ∧ (5 ≤ length ls → ∀ rest, ls = [] :: rest →
       parse_highlight (join nl ls) = parse_lines rest
       ∧ (length rest = 4 → parse_highlight (join nl rest) = Ok empty_set)
       ∧ (5 ≤ length rest → head rest ≠ Some [] →
            parse_highlight (join nl ls) = parse_highlight (join nl rest)))
  ∧ (5 ≤ length ls → head ls ≠ Some [] →
       parse_highlight (join nl ls) = parse_lines ls)
  ∧ (5 ≤ length ls →
     ∀ bd hd rest start group1 descriptor raw_date more k l d,
       ls = [] :: bd :: hd :: rest →
       search_author bd = Some (start, group1) →
       split (txt " | Added on ") hd = descriptor :: raw_date :: more →
       get_type_and_location descriptor = Ok (k, l) →
       tidy_date raw_date = Ok d →
       parse_highlight (join nl ls)
       = Ok (mk_Highlight (Some (strip (tidy_title (take start bd))))
               (Some (strip group1)) (Some (strip k)) (Some (strip l))
               (Some d)
               (Some (strip (join nl (slice_to_last 3 (bd :: hd :: rest))))))).
Proof.
  intros Hne Hls.
  assert (∀ ls' : list str, ls' ≠ [] → forallb one_line ls' = true →
            parse_highlight (join nl ls')
            = if length ls' <? 5 then Ok empty_set
              else parse_lines (drop_separator_line ls')) as Hparse.
  { intros ls' Hne' Hls'. unfold parse_highlight.
    by rewrite split_join_lines. }
  rewrite (Hparse ls Hne Hls).
  split_and!.
  - by intros ->.
  - intros Hlt. apply Nat.ltb_lt in Hlt. by rewrite Hlt.
  - intros Hge. apply Nat.ltb_ge in Hge as Hge'. rewrite Hge'. split; [done|].
    destruct ls as [|[|c l] ls]; simpl in *; lia.
  - intros Hge rest ->. apply Nat.ltb_ge in Hge as Hge'. rewrite Hge'.
    cbn [length] in Hge. cbn [forallb] in Hls.
    assert (rest ≠ []) as Hrest by (intros ->; simpl in Hge; lia).
    split_and!; [done| |].
    + intros H4. rewrite (Hparse rest Hrest Hls), H4. reflexivity.
    + intros H5 Hhead. rewrite (Hparse rest Hrest Hls).
      apply Nat.ltb_ge in H5. rewrite H5.
      destruct rest as [|[|c l] rest]; done.
  - intros Hge Hhead. apply Nat.ltb_ge in Hge. rewrite Hge.
    destruct ls as [|[|c l] ls]; done.
  - intros Hge bd hd rest start group1 descriptor raw_date more k l d
      -> Ha Hsplit Htl Hd.
    apply Nat.ltb_ge in Hge. rewrite Hge. cbn [drop_separator_line].
    rewrite (parse_lines_dated (bd :: hd :: rest) bd hd start group1
               descriptor raw_date more k l) by done.
    by rewrite Hd.
Qed.

Lemma length_check_before_dropping_witness :
  parse_highlight three_line_block = Ok empty_set
  ∧ parse_highlight block_after_separator
    = Ok (full "The Great Book" "Jane Author" "Bookmark" "Location 120"
            "24/10/18 10:25:36" "").
Proof.
  split.
  - refine (proj1 (length_check_before_dropping
              (map txt [ "The Great Book (Jane Author)";
                         "- Your Highlight on Location 120-121 | Added on Wednesday, October 24, 2018 10:25:36 PM";
                         "" ]%string) _ _) _).
    + discriminate.
    + vm_compute. reflexivity.
    + reflexivity.
  - refine (proj2 (proj2 (proj2 (proj2 (proj2 (length_check_before_dropping
              (map txt [ "";
                         "The Great Book (Jane Author)";
                         "- Your Bookmark on Location 120 | Added on Wednesday, October 24, 2018 10:25:36 PM";
                         "";
                         "" ]%string) _ _))))) _
              (txt "The Great Book (Jane Author)")
              (txt "- Your Bookmark on Location 120 | Added on Wednesday, October 24, 2018 10:25:36 PM")
              (map txt [ ""; "" ]%string) 15 (txt "Jane Author")
              (txt "- Your Bookmark on Location 120")
              (txt "Wednesday, October 24, 2018 10:25:36 PM") []
              (txt "Bookmark") (txt "Location 120") (txt "24/10/18 10:25:36")
              _ _ _ _ _).
    + discriminate.
    + vm_compute. reflexivity.
    + vm_compute. lia.
    + reflexivity.
    + vm_compute. reflexivity.
    + vm_compute. reflexivity.
    + vm_compute. reflexivity.
    + vm_compute. reflexivity.
Defined.

(** ** The outcomes of the parser *)

Lemma get_type_and_location_raises d e :
  get_type_and_location d = Raise e → e = IndexError.
Proof.
  unfold get_type_and_location, index. cbv [mbind result_bind mret result_ret].
  repeat case_match; congruence.
Qed.



Lemma truthy_split sep s : sep ≠ [] → truthy (split sep s) = true.
Proof.
  intros Hsep. pose proof (split_nonempty sep Hsep s).
  by destruct (split sep s).
Qed.



(** ** Descriptors made of tokens *)

Section ScanMore.
Variable sep : str.
Hypothesis sep_nonempty : sep ≠ [].

Lemma replace_from_skip new k s :
  replace_from sep new k s = replace sep new (drop k s).
Proof.
  revert k. induction s as [|c s IH]; intros [|k]; simpl; try reflexivity.
  apply IH.
Qed.

Lemma replace_match new c s :
  startswith sep (c :: s) = true →
  replace sep new (c :: s) = new ++ replace sep new (drop (length sep) (c :: s)).
Proof.
  intros H. unfold replace at 1. simpl replace_from. rewrite H.
  by rewrite replace_from_skip, (drop_sep sep sep_nonempty c).
Qed.

Lemma replace_no_match new c s :
  startswith sep (c :: s) = false →
  replace sep new (c :: s) = c :: replace sep new s.
Proof. intros H. unfold replace at 1. simpl replace_from. by rewrite H. Qed.
End ScanMore.

(** The scans at an occurrence of the pattern. *)
Lemma replace_prefix sep new s :
  sep ≠ [] → replace sep new (sep ++ s) = new ++ replace sep new s.
Proof.
  intros Hsep. destruct sep as [|a sep']; [done|]. cbn [app].
  rewrite replace_match by (done || apply (startswith_refl_app (a :: sep'))).
  cbn [length drop]. by rewrite drop_app_length.
Qed.

Lemma split_prefix sep s :
  sep ≠ [] → split sep (sep ++ s) = [] :: split sep s.
Proof.
  intros Hsep. destruct sep as [|a sep']; [done|]. cbn [app].
  rewrite split_match by (done || apply (startswith_refl_app (a :: sep'))).
  cbn [length drop]. by rewrite drop_app_length.
Qed.

(** A pattern with a white space in it does not start a token. *)
Lemma startswith_token pat t :
  existsb isspace pat = true → token t = true → startswith pat t = false.
Proof.
  unfold token. revert t. induction pat as [|a pat IH]; [done|].
  intros [|c t]; [done|]. cbn [existsb forallb startswith].
  intros Hpat [Hc Ht]%andb_prop.
  destruct (Ascii.eqb a c) eqn:Hac; [|done]. apply Ascii.eqb_eq in Hac as ->.
  apply negb_true_iff in Hc. rewrite Hc in Hpat. simpl in Hpat. simpl. by apply IH.
Qed.

(** A pattern that starts with a white space: tokens have no occurrence
    of it, and [split] passes over them. *)
Lemma split_token a sep' t rest :
  isspace a = true → token t = true →
  split (a :: sep') (t ++ rest)
  = match split (a :: sep') rest with
    | piece :: pieces => (t ++ piece) :: pieces
    | [] => [t]
    end.
Proof.
  intros Ha. unfold token.
  assert (split (a :: sep') rest ≠ []) as Hne by by apply split_nonempty.
  induction t as [|c t IH]; cbn [app forallb]; intros Ht.
  - by destruct (split (a :: sep') rest).
  - apply andb_prop in Ht as [Hc Ht].
    assert (Ascii.eqb a c = false) as Hac.
    { destruct (Ascii.eqb a c) eqn:E; [|done].
      apply Ascii.eqb_eq in E as ->. by rewrite Ha in Hc. }
    rewrite split_no_match, IH by (done || by apply startswith_cons_ne).
    by destruct (split (a :: sep') rest).
Qed.

(** A pattern whose second character is a white space: [replace] passes
    over a token that is not followed by the rest of the pattern. *)
Lemma replace_token a b old' new t rest :
  isspace b = true → token t = true →
  startswith (b :: old') rest = false →
  replace (a :: b :: old') new (t ++ rest) = t ++ replace (a :: b :: old') new rest.
Proof.
  intros Hb. unfold token.
  induction t as [|c t IH]; cbn [app forallb]; intros Ht Hrest; [done|].
  apply andb_prop in Ht as [Hc Ht].
  rewrite replace_no_match, IH; try done.
  rewrite startswith_cons. destruct t as [|c' t]; cbn [app].
  - rewrite Hrest. apply andb_false_r.
  - cbn [forallb] in Ht. apply andb_prop in Ht as [Hc' _].
    rewrite (startswith_cons_ne b old' c'); [apply andb_false_r|].
    destruct (Ascii.eqb b c') eqn:E; [|done].
    apply Ascii.eqb_eq in E as ->. by rewrite Hb in Hc'.
Qed.

(** [replace] passes over characters other than the first one of the
    pattern. *)
Lemma replace_plain a old' new t rest :
  forallb (λ c, negb (Ascii.eqb a c)) t = true →
  replace (a :: old') new (t ++ rest) = t ++ replace (a :: old') new rest.
Proof.
  induction t as [|c t IH]; cbn [app forallb]; intros Ht; [done|].
  apply andb_prop in Ht as [Hc Ht].
  rewrite replace_no_match, IH; try done.
  apply startswith_cons_ne. by apply negb_true_iff.
Qed.

Lemma digits_token p : digits p = true → token p = true.
Proof.
  unfold digits, token. induction p as [|c p IH]; cbn [forallb]; [done|].
  intros [Hc Hp]%andb_prop. rewrite IH by done.
  rewrite andb_true_r. revert Hc.
  destruct c as [[] [] [] [] [] [] [] []]; vm_compute; done.
Qed.

(** A pattern that starts with a character that is no digit does not
    start a number followed by another character. *)
Lemma startswith_digits pat p c rest :
  match pat with
  | a :: _ => negb (isdigit a) && negb (Ascii.eqb a c)
  | [] => false
  end = true →
  digits p = true →
  startswith pat (p ++ c :: rest) = false.
Proof.
  destruct pat as [|a pat']; [done|].
  intros [Ha Hac]%andb_prop Hp.
  apply negb_true_iff in Ha. apply negb_true_iff in Hac.
  destruct p as [|d p]; cbn [app].
  - by apply startswith_cons_ne.
  - apply startswith_cons_ne. cbn [digits forallb] in Hp.
    apply andb_prop in Hp as [Hd _].
    destruct (Ascii.eqb a d) eqn:E; [|done].
    apply Ascii.eqb_eq in E as ->. congruence.
Qed.

Lemma digits_plain a p :
  isdigit a = false → digits p = true →
  forallb (λ c, negb (Ascii.eqb a c)) p = true.
Proof.
  intros Ha. unfold digits. induction p as [|d p IH]; cbn [forallb]; [done|].
  intros [Hd Hp]%andb_prop. rewrite IH by done. rewrite andb_true_r.
  destruct (Ascii.eqb a d) eqn:E; [|done].
  apply Ascii.eqb_eq in E as ->. congruence.
Qed.

Lemma split_free_token a sep' t :
  isspace a = true → token t = true → split (a :: sep') t = [t].
Proof.
  intros Ha Ht. rewrite <- (app_nil_r t) at 1.
  rewrite split_token by done. cbn. by rewrite app_nil_r.
Qed.

(** No occurrence in a token and a following character, when there is
    none in the rest and none at the seam. *)
Lemma split_free_step a sep' t c rest :
  isspace a = true → token t = true →
  startswith (a :: sep') (c :: rest) = false →
  split (a :: sep') rest = [rest] →
  split (a :: sep') (t ++ c :: rest) = [t ++ c :: rest].
Proof.
  intros Ha Ht Hc Hrest.
  by rewrite split_token, split_no_match, Hrest.
Qed.

Lemma replace_token_end a b old' new t :
  isspace b = true → token t = true → replace (a :: b :: old') new t = t.
Proof.
  intros Hb Ht. rewrite <- (app_nil_r t) at 1.
  rewrite replace_token by done. apply app_nil_r.
Qed.

Lemma token_In t c : token t = true → In c t → isspace c = false.
Proof.
  unfold token. rewrite forallb_forall. intros Ht Hc.
  by apply negb_true_iff, Ht.
Qed.

(** White space is stripped from neither end of a text that starts and
    ends with a token. *)
Lemma strip_tokens t1 m t2 :
  t1 ≠ [] → token t1 = true → t2 ≠ [] → token t2 = true →
  strip (t1 ++ m ++ t2) = t1 ++ m ++ t2.
Proof.
  intros Hne1 Ht1 Hne2 Ht2. apply strip_with_fix. split.
  - destruct t1 as [|c1 t1]; [done|]. intros c s' [= <- _].
    apply (token_In (c1 :: t1)); [done|by left].
  - rewrite !rev_app_distr.
    destruct (rev t2) as [|c2 t2'] eqn:E.
    { apply (f_equal (@rev ascii)) in E. rewrite rev_involutive in E. done. }
    intros c s' [= <- _]. apply (token_In t2); [done|].
    apply in_rev. rewrite E. by left.
Qed.

Lemma strip_token t : token t = true → strip t = t.
Proof.
  intros Ht. apply strip_with_fix. split.
  - intros c s' ->. apply (token_In (c :: s')); [done|by left].
  - intros c s' E. apply (token_In t); [done|].
    apply in_rev. rewrite E. by left.
Qed.

Section PageAndLocation.
Variables kind p r : str.
Hypothesis kind_nonempty : kind ≠ [].
Hypothesis kind_token : token kind = true.
Hypothesis p_digits : digits p = true.
Hypothesis r_nonempty : r ≠ [].
Hypothesis r_token : token r = true.

(** The prefix is removed, and nothing else. *)
Lemma replace_your :
  replace (txt "- Your ") []
    (txt "- Your " ++ kind ++ txt " on page " ++ p ++ txt " | Location " ++ r)
  = kind ++ txt " on page " ++ p ++ txt " | Location " ++ r.
Proof.
  rewrite replace_prefix by done. cbn [app].
  change (txt "- Your ") with ("-"%char :: " "%char :: txt "Your ").
  rewrite replace_token by done. f_equal.
  rewrite replace_plain by done. f_equal.
  rewrite replace_plain by (by apply digits_plain). f_equal.
  rewrite replace_plain by done. f_equal.
  by apply replace_token_end.
Qed.

(** The location phrase has no " on " in it. *)
Lemma split_on_phrase :
  split (txt " on ") (txt "page " ++ p ++ txt " | Location " ++ r)
  = [txt "page " ++ p ++ txt " | Location " ++ r].
Proof.
  change (txt " on ") with (" "%char :: txt "on ").
  change (txt "page " ++ p ++ txt " | Location " ++ r)
    with (txt "page" ++ " "%char :: p ++ " "%char :: txt "|"
            ++ " "%char :: txt "Location" ++ " "%char :: r).
  apply split_free_step; [done|done| |].
  { rewrite startswith_cons, startswith_digits by done. apply andb_false_r. }
  apply split_free_step; [done|by apply digits_token|done|].
  apply split_free_step; [done|done|done|].
  apply split_free_step; [done|done| |by apply split_free_token].
  rewrite startswith_cons, startswith_token by done. apply andb_false_r.
Qed.

Lemma split_on :
  split (txt " on ")
    (kind ++ txt " on page " ++ p ++ txt " | Location " ++ r)
  = [kind; txt "page " ++ p ++ txt " | Location " ++ r].
Proof.
  change (txt " on page " ++ p ++ txt " | Location " ++ r)
    with (txt " on " ++ (txt "page " ++ p ++ txt " | Location " ++ r)).
  change (txt " on ") with (" "%char :: txt "on ") at 1.
  rewrite split_token by done.
  change (" "%char :: txt "on ") with (txt " on ").
  rewrite split_prefix, split_on_phrase by done. by rewrite app_nil_r.
Qed.

(** The pipe separates the page from the location. *)
Lemma split_pipe :
  split (txt " | ") (txt "page " ++ p ++ txt " | Location " ++ r)
  = [txt "page " ++ p; txt "Location " ++ r].
Proof.
  change (txt "page " ++ p ++ txt " | Location " ++ r)
    with (txt "page" ++ " "%char :: p ++ txt " | "
            ++ (txt "Location" ++ " "%char :: r)).
  change (txt " | ") with (" "%char :: txt "| ") at 1.
  rewrite split_token by done.
  rewrite split_no_match.
  2:{ rewrite startswith_cons.
      change (txt " | " ++ txt "Location" ++ " "%char :: r)
        with (" "%char :: txt "| " ++ txt "Location" ++ " "%char :: r).
      rewrite startswith_digits by done. apply andb_false_r. }
  rewrite split_token by (done || by apply digits_token).
  change (" "%char :: txt "| ") with (txt " | ").
  rewrite split_prefix by done.
  change (txt " | ") with (" "%char :: txt "| ").
  rewrite split_free_step; [|done|done| |by apply split_free_token].
  2:{ rewrite startswith_cons, startswith_token by done. apply andb_false_r. }
  cbn [cons_head]. by rewrite app_nil_r.
Qed.

End PageAndLocation.

(** C3, as the code has it: for a descriptor with a page and a location,
    [- Your <Kind> on page <n> | Location <range>], where the kind and
    the range are non-empty and without white space and the page is a
    number, the kind is <Kind> and the location is the segment after the
    pipe, [Location <range>], with the word Location in front of the
    range. *)
Theorem page_and_location (kind p r : str) :
  kind ≠ [] → token kind = true → digits p = true →
  r ≠ [] → token r = true →
  get_type_and_location
    (txt "- Your " ++ kind ++ txt " on page " ++ p ++ txt " | Location " ++ r)
  = Ok (kind, txt "Location " ++ r).
Proof.
  intros kind_nonempty kind_token p_digits r_nonempty r_token.
  unfold get_type_and_location.
  rewrite replace_your by done.
  assert (strip (kind ++ txt " on page " ++ p ++ txt " | Location " ++ r)
          = kind ++ txt " on page " ++ p ++ txt " | Location " ++ r) as ->.
  { pose proof (strip_tokens kind (txt " on page " ++ p ++ txt " | Location ") r
                  kind_nonempty kind_token r_nonempty r_token) as H.
    by rewrite <- !app_assoc in H. }
  rewrite split_on by done.
  cbn [index lookup list_lookup mbind result_bind].
  rewrite split_pipe by done.
  cbn [length Nat.eqb index lookup list_lookup mbind result_bind mret result_ret].
  rewrite strip_token by done.
  change (txt "Location " ++ r) with (txt "Location" ++ txt " " ++ r).
  by rewrite strip_tokens.
Qed.

Lemma page_and_location_witness :
  get_type_and_location (txt "- Your Note on page 57 | Location 866")
  = Ok (txt "Note", txt "Location 866").
Proof.
  apply (page_and_location (txt "Note") (txt "57") (txt "866"));
    (discriminate || reflexivity).
Defined.

(** * Further properties *)

(** ** What [tidy_title] removes and what it leaves *)

Lemma lstrip_with_dropped d s :
  ∃ p, s = p ++ lstrip_with d s ∧ Forall (λ c, d c = true) p.
Proof.
  induction s as [|a s (p & IH & Hp)]; simpl; [by exists []|].
  destruct (d a) eqn:Ha; [|by exists []].
  exists (a :: p). split; [simpl; by f_equal|by constructor].
Qed.

Lemma strip_with_dropped d s :
  ∃ pre post, s = pre ++ strip_with d s ++ post
    ∧ Forall (λ c, d c = true) pre ∧ Forall (λ c, d c = true) post.
Proof.
  unfold strip_with, rstrip_with.
  destruct (lstrip_with_dropped d s) as (pre & Hs & Hpre).
  destruct (lstrip_with_dropped d (rev (lstrip_with d s))) as (q & Ht & Hq).
  exists pre, (rev q). split_and!; [|done|by apply List.Forall_rev].
  rewrite Hs at 1. f_equal.
  rewrite <- (rev_involutive (lstrip_with d s)) at 1.
  rewrite Ht at 1. apply rev_app_distr.
Qed.

(** X1: the normalised title is what is left of the raw title when the
    characters outside the class are deleted and then a run of non-word
    characters is cut off at each end; every character of it is of the
    class, so it has no slash and no backslash. *)
Theorem tidy_title_decomposition (raw_title : str) :
  ∃ pre post,
    List.filter title_char raw_title = pre ++ tidy_title raw_title ++ post
    ∧ Forall (λ c, isword c = false) pre
    ∧ Forall (λ c, isword c = false) post
    ∧ Forall (λ c, title_char c = true ∧ c ≠ "/"%char ∧ c ≠ "\"%char)
        (tidy_title raw_title).
Proof.
  destruct (strip_with_dropped (λ c, negb (isword c))
              (List.filter title_char raw_title)) as (pre & post & H & Hpre & Hpost).
  exists pre, post. split_and!; [done| | |].
  - eapply Forall_impl; [exact Hpre|]. intros c. apply negb_true_iff.
  - eapply Forall_impl; [exact Hpost|]. intros c. apply negb_true_iff.
  - eapply Forall_impl; [apply tidy_title_chars|].
    intros c Hc. split; [done|]. split; intros ->; done.
Qed.

(** X2: a normalised title is empty or starts and ends with a word
    character, a letter, a digit or an underscore. *)
Theorem tidy_title_word_ends (raw_title : str) (c : ascii) :
  head (tidy_title raw_title) = Some c ∨ last (tidy_title raw_title) = Some c →
  isword c = true.
Proof.
  destruct (tidy_title_ends raw_title) as [Hhd Hlast].
  intros [H|H]; apply negb_false_iff.
  - destruct (tidy_title raw_title) as [|c' s'] eqn:E; [done|].
    injection H as ->. by apply (Hhd c s').
  - apply last_Some in H as [l' H].
    apply (Hlast c (rev l')). by rewrite H, rev_app_distr.
Qed.

Lemma tidy_title_word_ends_witness :
  isword "k"%char = true.
Proof.
  apply (tidy_title_word_ends (txt " *The Great Book! ") "k"%char).
  right. vm_compute. reflexivity.
Defined.

(** ** The pieces of [split] *)

Lemma startswith_app_r (p s r : str) :
  startswith p s = true → startswith p (s ++ r) = true.
Proof.
  revert s. induction p as [|a p IH]; intros [|b s]; simpl; try done.
  intros [Hab Hps]%andb_prop. rewrite Hab. by apply IH.
Qed.

Lemma split_first_prefix sep s :
  sep ≠ [] → ∃ piece pieces rest, split sep s = piece :: pieces ∧ s = piece ++ rest.
Proof.
  intros Hsep. destruct (split_count_join sep Hsep s) as [_ Hjoin].
  destruct (split sep s) as [|piece [|piece' pieces]] eqn:E.
  - by apply split_nonempty in E.
  - exists piece, [], []. simpl in Hjoin. by rewrite app_nil_r.
  - eexists piece, _, _. split; [done|]. rewrite <- Hjoin at 1. reflexivity.
Qed.

(** X3: no piece that [split] returns has an occurrence of the
    separator in it; no block of a clippings file has a separator line
    in it. *)
Theorem split_pieces_free (sep s piece : str) :
  sep ≠ [] → piece ∈ split sep s → count sep piece = 0.
Proof.
  intros Hsep. revert piece.
  remember (length s) as n eqn:Hn. revert s Hn.
  induction n as [n IH] using lt_wf_ind. intros [|c s] Hn piece.
  { intros ->%list_elem_of_singleton. done. }
  destruct (startswith sep (c :: s)) eqn:H.
  - rewrite split_match by done.
    intros [->|Hin]%elem_of_cons; [done|].
    eapply (IH (length (drop (length sep) (c :: s)))); [|reflexivity|exact Hin].
    rewrite length_drop. subst n. destruct sep; simpl in *; [done|lia].
  - rewrite split_no_match by done.
    destruct (split_first_prefix sep s Hsep) as (p0 & ps & rest & Hsplit & Hs).
    rewrite Hsplit. cbn [cons_head].
    intros [->|Hin]%elem_of_cons.
    + assert (startswith sep (c :: p0) = false) as Hp.
      { destruct (startswith sep (c :: p0)) eqn:Hp; [|done].
        apply (startswith_app_r _ _ rest) in Hp. simpl in Hp.
        rewrite <- Hs in Hp. congruence. }
      rewrite count_no_match by done.
      apply (IH (length s) ltac:(subst n; simpl; lia) s eq_refl).
      rewrite Hsplit. apply list_elem_of_here.
    + apply (IH (length s) ltac:(subst n; simpl; lia) s eq_refl).
      rewrite Hsplit. by apply elem_of_cons; right.
Qed.

Lemma split_pieces_free_witness :
  count HIGHLIGHT_SEPARATOR (txt "=") = 0.
Proof.
  apply (split_pieces_free HIGHLIGHT_SEPARATOR (txt "a=====================") (txt "="));
    [done|].
  vm_compute. apply elem_of_cons. right. apply elem_of_cons. right.
  apply list_elem_of_here.
Defined.

(** ** The author group of a title line *)

Lemma upto_close_spec s g rest :
  upto_close s = Some (g, rest) → s = g ++ ")"%char :: rest ∧ (")"%char ∉ g).
Proof.
  revert g. induction s as [|c s IH]; intros g; simpl; [done|].
  destruct (Ascii.eqb c ")") eqn:E.
  - apply Ascii.eqb_eq in E as ->. intros [= <- <-]. split; [done|apply not_elem_of_nil].
  - destruct (upto_close s) as [[g' rest']|]; [|done].
    intros [= <- <-]. destruct (IH g' eq_refl) as [-> Hg]. split; [done|].
    apply Ascii.eqb_neq in E. rewrite not_elem_of_cons. split; [congruence|done].
Qed.

Lemma upto_close_app g rest :
  ")"%char ∉ g → upto_close (g ++ ")"%char :: rest) = Some (g, rest).
Proof.
  induction g as [|c g IH]; simpl; [done|].
  intros [Hc Hg]%not_elem_of_cons.
  apply not_eq_sym, Ascii.eqb_neq in Hc. by rewrite Hc, IH.
Qed.

Lemma not_elem_of_forallb (c : ascii) (s : str) :
  forallb (fun x => negb (Ascii.eqb x c)) s = true ↔ c ∉ s.
Proof.
  induction s as [|x s IH]; simpl.
  - split; [intros _; apply not_elem_of_nil|done].
  - rewrite andb_true_iff, IH, not_elem_of_cons, negb_true_iff, Ascii.eqb_neq.
    split; intros [? ?]; split; congruence.
Qed.

(** X4: when [re.search] finds the author group, the line is the text
    before the match, an opening bracket, the group, a closing bracket
    and a tail; the group has no closing bracket in it and the tail no
    opening bracket. *)
Theorem search_author_sound (book_details : str) (start : nat) (group1 : str) :
  search_author book_details = Some (start, group1) →
  ∃ tail,
    book_details
      = take start book_details ++ "("%char :: group1 ++ ")"%char :: tail
    ∧ (")"%char ∉ group1) ∧ ("("%char ∉ tail).
Proof.
  revert start. induction book_details as [|c s IH]; intros start; [done|].
  cbn [search_author]. destruct (match_author_at (c :: s)) as [g|] eqn:Hm.
  - intros [= <- <-]. cbn [match_author_at] in Hm.
    destruct (Ascii.eqb c "(") eqn:Hc; [|done].
    apply Ascii.eqb_eq in Hc as ->.
    destruct (upto_close s) as [[g' rest]|] eqn:Hu; [|done].
    destruct (forallb _ rest) eqn:Hrest; [|done].
    injection Hm as ->. apply upto_close_spec in Hu as [-> Hg].
    exists rest. split_and!; [done|done|by apply not_elem_of_forallb].
  - destruct (search_author s) as [[i g]|]; [|done].
    intros [= <- <-]. destruct (IH i eq_refl) as (tail & Hs & Hg & Htail).
    exists tail. split_and!; [|done|done]. cbn [take app]. by f_equal.
Qed.

Lemma search_author_sound_witness :
  ∃ tail,
    txt "The Great Book (Jane Author)"
      = take 15 (txt "The Great Book (Jane Author)")
        ++ "("%char :: txt "Jane Author" ++ ")"%char :: tail
    ∧ (")"%char ∉ txt "Jane Author") ∧ ("("%char ∉ tail).
Proof.
  apply (search_author_sound (txt "The Great Book (Jane Author)") 15 (txt "Jane Author")).
  vm_compute. reflexivity.
Defined.

Lemma existsb_close_split (s : str) :
  existsb (Ascii.eqb ")"%char) s = true →
  ∃ g rest, s = g ++ ")"%char :: rest ∧ ")"%char ∉ g.
Proof.
  induction s as [|c s IH]; cbn [existsb]; [done|].
  destruct (Ascii.eqb ")" c) eqn:E.
  - apply Ascii.eqb_eq in E as <-. intros _. exists [], s.
    split; [done|apply not_elem_of_nil].
  - rewrite orb_false_l. intros (g & rest & -> & Hg)%IH. exists (c :: g), rest.
    split; [done|]. apply Ascii.eqb_neq in E.
    rewrite not_elem_of_cons. split; [congruence|done].
Qed.

(** X5: the last bracketed group of the title line is the author, also
    when the title has brackets of its own: when every opening bracket of
    the text before the group is closed in that text, the group has no
    closing bracket and the tail no opening bracket, the search finds
    the group where it is. *)
Theorem search_author_last_group (before group1 tail : str) :
  brackets_closed before = true → ")"%char ∉ group1 → "("%char ∉ tail →
  search_author (before ++ "("%char :: group1 ++ ")"%char :: tail)
  = Some (length before, group1).
Proof.
  intros Hb Hg Ht. induction before as [|c before IH].
  - cbn [app length search_author match_author_at].
    rewrite Ascii.eqb_refl, upto_close_app by done.
    apply not_elem_of_forallb in Ht. by rewrite Ht.
  - cbn [brackets_closed] in Hb. apply andb_prop in Hb as [Hc Hb].
    assert (match_author_at (c :: before ++ "("%char :: group1 ++ ")"%char :: tail)
            = None) as Hm.
    { cbn [match_author_at]. destruct (Ascii.eqb c "("); [|done].
      apply existsb_close_split in Hc as (g & rest & -> & Hclose).
      rewrite <- app_assoc. cbn [app]. rewrite upto_close_app by done.
      destruct (forallb _ _) eqn:Hall; [|done].
      apply not_elem_of_forallb in Hall. exfalso. apply Hall.
      apply elem_of_app. right. apply list_elem_of_here. }
    cbn [app length search_author]. rewrite Hm. by rewrite IH.
Qed.

Lemma search_author_last_group_witness :
  search_author (txt "A Tale (Vol. 1) (Jane Author)") = Some (16, txt "Jane Author").
Proof.
  apply (search_author_last_group (txt "A Tale (Vol. 1) ") (txt "Jane Author") []).
  - reflexivity.
  - by apply not_elem_of_forallb.
  - apply not_elem_of_nil.
Defined.

(** X6: a line that lacks an opening bracket or a closing bracket has no
    author group. *)
Theorem search_author_none (line : str) :
  "("%char ∉ line ∨ ")"%char ∉ line → search_author line = None.
Proof.
  intros H. induction line as [|c s IH]; [done|].
  assert (match_author_at (c :: s) = None) as Hm.
  { cbn [match_author_at]. destruct (Ascii.eqb c "(") eqn:Hc; [|done].
    apply Ascii.eqb_eq in Hc as ->.
    destruct (upto_close s) as [[g rest]|] eqn:Hu; [|done].
    apply upto_close_spec in Hu as [-> _].
    destruct H as [H|H]; exfalso; apply H.
    - apply list_elem_of_here.
    - apply elem_of_cons. right. apply elem_of_app. right. apply list_elem_of_here. }
  cbn [search_author]. rewrite Hm. rewrite IH; [done|].
  destruct H as [H|H]; [left|right]; intros Hin; apply H;
    by apply elem_of_cons; right.
Qed.

Lemma search_author_none_witness :
  search_author (txt "A line with an open (bracket") = None.
Proof.
  apply (search_author_none (txt "A line with an open (bracket")).
  right. by apply not_elem_of_forallb.
Defined.

(** ** When [get_type_and_location] returns *)

Lemma split_length sep s :
  sep ≠ [] → length (split sep s) = count sep s + 1.
Proof. intros Hsep. by destruct (split_count_join sep Hsep s). Qed.

(** X7: [get_type_and_location] returns a kind and a location when the
    descriptor, without its prefix and stripped, has an occurrence of
    " on ", and raises [IndexError] when it has none. *)
Theorem get_type_and_location_needs_on (loc_str : str) :
  let stripped := strip (replace (txt "- Your ") [] loc_str) in
  (1 ≤ count (txt " on ") stripped →
     ∃ kind loc, get_type_and_location loc_str = Ok (kind, loc))
  ∧ (count (txt " on ") stripped = 0 →
     get_type_and_location loc_str = Raise IndexError).
Proof.
  intros stripped. unfold get_type_and_location. fold stripped.
  pose proof (split_length (txt " on ") stripped ltac:(done)) as Hlen.
  split; intros Hcount.
  - destruct (split (txt " on ") stripped) as [|kind [|second rest]] eqn:E;
      cbn [length] in Hlen; [lia|lia|].
    cbn [index lookup list_lookup mbind result_bind].
    pose proof (split_nonempty (txt " | ") ltac:(done) second) as Hne.
    destruct (split (txt " | ") second) as [|x [|y l]]; [done| |];
      cbn; eauto.
  - destruct (split (txt " on ") stripped) as [|kind [|second rest]] eqn:E;
      cbn [length] in Hlen; [lia| |lia].
    reflexivity.
Qed.

Lemma get_type_and_location_needs_on_witness :
  get_type_and_location (txt "- Your Bookmark at Location 77") = Raise IndexError.
Proof.
  apply (get_type_and_location_needs_on (txt "- Your Bookmark at Location 77")).
  vm_compute. reflexivity.
Defined.

(** X8: for a descriptor with a location only,
    [- Your <Kind> on Location <range>], where the kind and the range
    are non-empty and without white space, the kind is <Kind> and the
    location is [Location <range>]. *)
Theorem location_only (kind r : str) :
  kind ≠ [] → token kind = true → r ≠ [] → token r = true →
  get_type_and_location (txt "- Your " ++ kind ++ txt " on Location " ++ r)
  = Ok (kind, txt "Location " ++ r).
Proof.
  intros kind_nonempty kind_token r_nonempty r_token.
  assert (split (txt " on ") (txt "Location " ++ r) = [txt "Location " ++ r]
          ∧ split (txt " | ") (txt "Location " ++ r) = [txt "Location " ++ r])
    as [Hon Hpipe].
  { change (txt "Location " ++ r) with (txt "Location" ++ " "%char :: r).
    change (txt " on ") with (" "%char :: txt "on ").
    change (txt " | ") with (" "%char :: txt "| ").
    split; (apply split_free_step; [done|done| |by apply split_free_token]);
      rewrite startswith_cons, startswith_token by done; apply andb_false_r. }
  unfold get_type_and_location.
  rewrite replace_prefix by done. cbn [app].
  change (txt "- Your ") with ("-"%char :: " "%char :: txt "Your ").
  rewrite replace_token by done.
  rewrite replace_plain by done.
  rewrite replace_token_end by done.
  rewrite (strip_tokens kind (txt " on Location ") r) by done.
  assert (split (txt " on ") (kind ++ txt " on Location " ++ r)
          = [kind; txt "Location " ++ r]) as ->.
  { change (txt " on Location " ++ r) with (txt " on " ++ (txt "Location " ++ r)).
    change (txt " on ") with (" "%char :: txt "on ") at 1.
    rewrite split_token by done.
    change (" "%char :: txt "on ") with (txt " on ").
    rewrite split_prefix, Hon by done. by rewrite app_nil_r. }
  cbn [index lookup list_lookup mbind result_bind].
  rewrite Hpipe.
  cbn [length Nat.eqb index lookup list_lookup mbind result_bind mret result_ret].
  rewrite strip_token by done.
  change (txt "Location " ++ r) with (txt "Location" ++ txt " " ++ r).
  by rewrite strip_tokens.
Qed.

Lemma location_only_witness :
  get_type_and_location (txt "- Your Highlight on Location 6105-6113")
  = Ok (txt "Highlight", txt "Location 6105-6113").
Proof.
  apply (location_only (txt "Highlight") (txt "6105-6113"));
    (discriminate || reflexivity).
Defined.

(** ** What [parse_highlight] returns and when it raises *)

Lemma strip_strip s : strip (strip s) = strip s.
Proof. apply strip_with_idem. Qed.

(** X9: the title, the author, the kind, the location and the content of
    a Highlight that the parser returns have no white space at their
    ends: stripping them changes nothing. *)
Theorem parsed_fields_stripped (raw : str) (h : Highlight) (s : str) :
  parse_highlight raw = Ok h →
  title h = Some s ∨ author h = Some s ∨ highlight_type h = Some s
  ∨ main_loc h = Some s ∨ content h = Some s →
  strip s = s.
Proof.
  unfold parse_highlight. destruct (_ <? 5).
  { intros H. ret_inv H. simpl. intros [?|[?|[?|[?|?]]]]; done. }
  unfold parse_lines. intros H.
  apply bind_Ok in H as (book_details & _ & H).
  destruct (search_author book_details) as [[start group1]|].
  2:{ ret_inv H. simpl. intros [?|[?|[?|[?|?]]]]; done. }
  apply bind_Ok in H as (highlight_details & _ & H).
  destruct (truthy _).
  2:{ ret_inv H. simpl. intros [?|[?|[?|[?|?]]]]; done. }
  apply bind_Ok in H as (descriptor & _ & H).
  apply bind_Ok in H as (type_and_location & _ & H).
  apply bind_Ok in H as (date0 & _ & H).
  apply bind_Ok in H as (date1 & _ & H).
  ret_inv H. simpl.
  intros [[= <-]|[[= <-]|[[= <-]|[[= <-]|[= <-]]]]]; apply strip_strip.
Qed.

Lemma parsed_fields_stripped_witness :
  strip (txt "This is the highlighted text.") = txt "This is the highlighted text.".
Proof.
  apply (parsed_fields_stripped great_book_block
           (full "The Great Book" "Jane Author" "Highlight" "Location 120-121"
              "24/10/18 10:25:36" "This is the highlighted text.")).
  - vm_compute. reflexivity.
  - do 4 right. reflexivity.
Defined.

(** X10: a block of at least 5 lines whose title line has an author
    group and whose second line has no date separator makes the parser
    raise [IndexError]. *)
Theorem parse_without_separator_raises (raw book_details highlight_details : str) :
  let ls := drop_separator_line (split nl raw) in
  5 ≤ length (split nl raw) →
  ls !! 0 = Some book_details → is_Some (search_author book_details) →
  ls !! 1 = Some highlight_details →
  count (txt " | Added on ") highlight_details = 0 →
  parse_highlight raw = Raise IndexError.
Proof.
  intros ls Hlen H0 [[start group1] Ha] H1 Hcount.
  unfold parse_highlight. apply Nat.ltb_ge in Hlen. rewrite Hlen.
  fold ls. unfold parse_lines, index. rewrite H0.
  cbn [mbind result_bind]. rewrite Ha, H1. cbn [mbind result_bind].
  rewrite truthy_split by done.
  pose proof (split_length (txt " | Added on ") highlight_details ltac:(done)) as Hl.
  rewrite Hcount in Hl.
  destruct (split (txt " | Added on ") highlight_details) as [|descriptor [|x l]];
    cbn [length] in Hl; [lia| |lia].
  cbn [lookup list_lookup mbind result_bind].
  destruct (get_type_and_location descriptor) as [tl|e] eqn:Htl; [done|].
  by apply get_type_and_location_raises in Htl as ->.
Qed.

Lemma parse_without_separator_raises_witness :
  parse_highlight block_without_date = Raise IndexError.
Proof.
  apply (parse_without_separator_raises block_without_date
           (txt "The Great Book (Jane Author)")
           (txt "- Your Highlight on Location 120-121")).
  - vm_compute. lia.
  - reflexivity.
  - eexists. vm_compute. reflexivity.
  - reflexivity.
  - vm_compute. reflexivity.
Defined.

(** ** Where the Highlights of a run end up *)

Lemma NoDup_fmap_eq {A B} (f : A → B) (l : list A) x y :
  NoDup (f <$> l) → x ∈ l → y ∈ l → f x = f y → x = y.
Proof.
  induction l as [|a l IH]; [by intros _ ?%not_elem_of_nil|].
  rewrite fmap_cons, NoDup_cons. intros [Ha Hl].
  intros [->|Hx]%elem_of_cons [->|Hy]%elem_of_cons Hf; try done.
  - exfalso. apply Ha. rewrite Hf. apply list_elem_of_fmap. eauto.
  - exfalso. apply Ha. rewrite <- Hf. apply list_elem_of_fmap. eauto.
  - by apply IH.
Qed.

(** X11: no Highlight with a title is lost or doubled by the
    aggregation: at the end of a run each of them is held by the Book of
    its title and by no other Book. *)
Theorem titled_highlight_in_one_book
    (file_contents : str) (lib written : list Book)
    (hs : list Highlight) (h : Highlight) (t : str) :
  process file_contents = Ok (lib, written) →
  parse_all (split HIGHLIGHT_SEPARATOR file_contents) = Ok hs →
  h ∈ hs → title h = Some t →
  ∃ b, b ∈ lib ∧ book_title b = t ∧ h ∈ highlights b
       ∧ ∀ b', b' ∈ lib → h ∈ highlights b' → b' = b.
Proof.
  intros (hs' & st & Hhs' & [Htitles Horder Hhl] & _ & -> & _)%process_library.
  rewrite Hhs'. intros [= <-] Hh Ht.
  assert (t ∈ book_title <$> library st) as (b & -> & Hb)%list_elem_of_fmap.
  { rewrite Horder, elem_of_first_seen, elem_of_titles_of. eauto. }
  exists b. split_and!; [done|done| |].
  - rewrite (Hhl b Hb). by apply list_elem_of_filter.
  - intros b' Hb' Hin. rewrite (Hhl b' Hb') in Hin.
    apply list_elem_of_filter in Hin as [Ht' _].
    apply (NoDup_fmap_eq book_title (library st)); [|done|done|congruence].
    rewrite Horder. apply NoDup_first_seen.
Qed.

Lemma titled_highlight_in_one_book_witness :
  ∃ b, b ∈ [mk_Book [] (Some (txt "Jane Author"))
              [full "" "Jane Author" "Highlight" "Location 120-121"
                 "24/10/18 10:25:36" "This is the highlighted text."]]
       ∧ book_title b = []
       ∧ full "" "Jane Author" "Highlight" "Location 120-121"
           "24/10/18 10:25:36" "This is the highlighted text." ∈ highlights b
       ∧ ∀ b', b' ∈ [mk_Book [] (Some (txt "Jane Author"))
                       [full "" "Jane Author" "Highlight" "Location 120-121"
                          "24/10/18 10:25:36" "This is the highlighted text."]] →
               full "" "Jane Author" "Highlight" "Location 120-121"
                 "24/10/18 10:25:36" "This is the highlighted text." ∈ highlights b' →
               b' = b.
Proof.
  apply (titled_highlight_in_one_book starred_title_file _ []
           [full "" "Jane Author" "Highlight" "Location 120-121"
              "24/10/18 10:25:36" "This is the highlighted text."]).
  - vm_compute. reflexivity.
  - vm_compute. reflexivity.
  - apply list_elem_of_here.
  - reflexivity.
Defined.

(** The first Highlight of every Book is the one it was made for. *)
Lemma aggregate_step_first st h :
  (∀ b, b ∈ library st →
     ∃ h0 rest, highlights b = h0 :: rest ∧ book_author b = author h0) →
  ∀ b, b ∈ library (aggregate_step st h) →
     ∃ h0 rest, highlights b = h0 :: rest ∧ book_author b = author h0.
Proof.
  intros Hst b. unfold aggregate_step.
  assert (b ∈ add_to_same_title h <$> library st →
          ∃ h0 rest, highlights b = h0 :: rest ∧ book_author b = author h0) as Hupd.
  { intros (b0 & -> & Hb0)%list_elem_of_fmap.
    destruct (Hst b0 Hb0) as (h0 & rest & Hhl & Hauthor).
    unfold add_to_same_title. destruct (same_title b0 h); [|eauto].
    simpl. rewrite Hhl. eauto. }
  destruct (title h) as [t|]; [|done].
  destruct (bool_decide _); [|done]. simpl.
  intros [Hb| ->%list_elem_of_singleton]%elem_of_app; [by apply Hst|].
  simpl. eauto.
Qed.

Lemma fold_aggregate_first hs st :
  (∀ b, b ∈ library st →
     ∃ h0 rest, highlights b = h0 :: rest ∧ book_author b = author h0) →
  ∀ b, b ∈ library (fold_left aggregate_step hs st) →
     ∃ h0 rest, highlights b = h0 :: rest ∧ book_author b = author h0.
Proof.
  revert st. induction hs as [|h hs IH]; intros st Hst; simpl; [apply Hst|].
  apply IH. by apply aggregate_step_first.
Qed.

Lemma initial_first b :
  b ∈ library initial_state →
  ∃ h0 rest, highlights b = h0 :: rest ∧ book_author b = author h0.
Proof. by intros ?%not_elem_of_nil. Qed.

(** X12: every Book of the library has at least one Highlight, and its
    author is the author of its first Highlight, the one that came first
    in the file under the title of the Book. *)
Theorem book_author_of_first (file_contents : str) (lib written : list Book) (b : Book) :
  process file_contents = Ok (lib, written) → b ∈ lib →
  ∃ h rest, highlights b = h :: rest
            ∧ book_author b = author h ∧ title h = Some (book_title b).
Proof.
  intros Hprocess Hb.
  assert (∃ h rest, highlights b = h :: rest ∧ book_author b = author h)
    as (h & rest & Hhl & Hauthor).
  { pose proof Hprocess as H. unfold process in H.
    rewrite aggregate_blocks_parse_all in H.
    apply bind_Ok in H as (st & H & Hret). ret_inv Hret.
    apply bind_Ok in H as (hs & _ & Hst). ret_inv Hst.
    by apply (fold_aggregate_first hs initial_state initial_first). }
  exists h, rest. split_and!; [done|done|].
  apply process_library in Hprocess as (hs & st & _ & [_ _ Hhl'] & _ & -> & _).
  assert (h ∈ highlights b) as Hin by (rewrite Hhl; apply list_elem_of_here).
  rewrite (Hhl' b Hb) in Hin. by apply list_elem_of_filter in Hin as [? _].
Qed.

Lemma book_author_of_first_witness :
  ∃ h rest,
    highlights (mk_Book [] (Some (txt "Jane Author"))
                  [full "" "Jane Author" "Highlight" "Location 120-121"
                     "24/10/18 10:25:36" "This is the highlighted text."])
      = h :: rest
    ∧ Some (txt "Jane Author") = author h ∧ title h = Some [].
Proof.
  apply (book_author_of_first starred_title_file
           [mk_Book [] (Some (txt "Jane Author"))
              [full "" "Jane Author" "Highlight" "Location 120-121"
                 "24/10/18 10:25:36" "This is the highlighted text."]] []).
  - vm_compute. reflexivity.
  - apply list_elem_of_here.
Defined.

(** ** The shape of the hash *)

Lemma hex_word_shape x :
  length (SHA1.hex_word x) = 8
  ∧ Forall (λ c, one_of (txt "0123456789abcdef") c = true) (SHA1.hex_word x).
Proof.
  split; [reflexivity|]. unfold SHA1.hex_word.
  apply Forall_forall. intros c (i & -> & _)%list_elem_of_fmap.
  pose proof (Z.mod_pos_bound (Z.shiftr x (4 * Z.of_nat i)) 16 ltac:(lia)) as Hv.
  set (v := (Z.shiftr x (4 * Z.of_nat i) mod 16)%Z) in *.
  assert (v = 0 ∨ v = 1 ∨ v = 2 ∨ v = 3 ∨ v = 4 ∨ v = 5 ∨ v = 6 ∨ v = 7 ∨ v = 8
          ∨ v = 9 ∨ v = 10 ∨ v = 11 ∨ v = 12 ∨ v = 13 ∨ v = 14 ∨ v = 15)%Z
    as Hcases by lia.
  repeat (destruct Hcases as [->|Hcases]; [reflexivity|]). by rewrite Hcases.
Qed.

(** X13: the hash of a Highlight with content is a string of 40
    hexadecimal digits in lower case; a Highlight without content has no
    hash, the call raises [AttributeError]. *)
Theorem to_hash_shape (h : Highlight) :
  match content h with
  | Some _ =>
      ∃ d, to_hash h = Ok d ∧ length d = 40
           ∧ Forall (λ c, one_of (txt "0123456789abcdef") c = true) d
  | None => to_hash h = Raise AttributeError
  end.
Proof.
  unfold to_hash. destruct (content h) as [c|]; [|done].
  eexists. split; [done|]. unfold SHA1.hexdigest.
  destruct (SHA1.digest _) as [[[[h0 h1] h2] h3] h4].
  pose proof (hex_word_shape h0) as [L0 F0].
  pose proof (hex_word_shape h1) as [L1 F1].
  pose proof (hex_word_shape h2) as [L2 F2].
  pose proof (hex_word_shape h3) as [L3 F3].
  pose proof (hex_word_shape h4) as [L4 F4].
  split.
  - rewrite !length_app. lia.
  - by repeat apply Forall_app_2.
Qed.

(** ** Dates: what the matchers accept *)

Section MatcherInversion.
Context {R : Type}.
Implicit Types (k : @cont R) (x : R).

Lemma m_class_inv p (kc : ascii → @cont R) s x :
  m_class p kc s = Some x → ∃ c s', s = c :: s' ∧ p c = true ∧ kc c s' = Some x.
Proof.
  destruct s as [|c s']; simpl; [done|].
  destruct (p c) eqn:Hp; [|done]. eauto.
Qed.

Lemma m_lit_inv a k s x : m_lit a k s = Some x → ∃ s', k s' = Some x.
Proof. intros (c & s' & _ & _ & H)%m_class_inv. eauto. Qed.

Lemma m_word_inv w k s x : m_word w k s = Some x → ∃ s', k s' = Some x.
Proof.
  revert s. induction w as [|a w IH]; intros s; simpl; [eauto|].
  intros (s' & H)%m_lit_inv. by apply IH in H.
Qed.

Lemma m_alt_inv (a b : @cont R) s x :
  m_alt a b s = Some x → a s = Some x ∨ b s = Some x.
Proof. unfold m_alt. destruct (a s); [left|right]; done. Qed.

Lemma m_names_inv names (kn : nat → @cont R) s x :
  m_names names kn s = Some x →
  ∃ i w s', (i, w) ∈ names ∧ kn i s' = Some x.
Proof.
  induction names as [|[i w] names IH]; simpl; [done|].
  intros [H|H]%m_alt_inv.
  - apply m_word_inv in H as (s' & H). exists i, w, s'.
    split; [apply list_elem_of_here|done].
  - destruct (IH H) as (j & w' & s' & Hin & Hk). exists j, w', s'.
    split; [by apply elem_of_cons; right|done].
Qed.

Lemma m_spaces0_inv k s x : m_spaces0 k s = Some x → ∃ s', k s' = Some x.
Proof.
  induction s as [|c s IH]; simpl; [eauto|].
  destruct (isspace c); [|eauto].
  destruct (m_spaces0 k s) as [r|] eqn:E; [|eauto].
  intros [= ->]. by apply IH.
Qed.

Lemma m_spaces_inv k s x : m_spaces k s = Some x → ∃ s', k s' = Some x.
Proof. intros (c & s' & _ & _ & H)%m_class_inv. by apply m_spaces0_inv in H. Qed.

Lemma m_digit_inv lo hi (kn : nat → @cont R) s x :
  m_digit lo hi kn s = Some x → ∃ n s', lo ≤ n ≤ hi ∧ kn n s' = Some x.
Proof.
  intros (c & s' & _ & Hc & H)%m_class_inv. exists (code c - 48), s'.
  split; [|done]. unfold in_range in Hc.
  apply andb_prop in Hc as [H1 H2].
  apply Nat.leb_le in H1. apply Nat.leb_le in H2. lia.
Qed.

Lemma m_digit2_inv a1 a2 b1 b2 (kn : nat → @cont R) s x :
  m_digit2 a1 a2 b1 b2 kn s = Some x →
  ∃ n s', 10 * a1 + b1 ≤ n ≤ 10 * a2 + b2 ∧ kn n s' = Some x.
Proof.
  intros (a & s1 & Ha & (b & s2 & Hb & H)%m_digit_inv)%m_digit_inv.
  exists (10 * a + b), s2. split; [lia|done].
Qed.

Lemma m_d_inv (kn : nat → @cont R) s x :
  m_d kn s = Some x → ∃ n s', 1 ≤ n ≤ 31 ∧ kn n s' = Some x.
Proof.
  unfold m_d. intros H.
  apply m_alt_inv in H as [H|H]; [|apply m_alt_inv in H as [H|H];
    [|apply m_alt_inv in H as [H|H]; [|apply m_alt_inv in H as [H|H];
      [|apply m_lit_inv in H as (? & H)]]]];
    (apply m_digit2_inv in H || apply m_digit_inv in H);
    destruct H as (n & s' & Hn & H); exists n, s'; (split; [lia|done]).
Qed.

Lemma m_Y_inv (kn : nat → @cont R) s x :
  m_Y kn s = Some x → ∃ n s', kn n s' = Some x.
Proof.
  unfold m_Y. intros (hi & s1 & _ & (lo & s2 & _ & H)%m_digit2_inv)%m_digit2_inv.
  eauto.
Qed.

Lemma m_H_inv (kn : nat → @cont R) s x :
  m_H kn s = Some x → ∃ n s', n ≤ 23 ∧ kn n s' = Some x.
Proof.
  unfold m_H. intros H.
  apply m_alt_inv in H as [H|H]; [|apply m_alt_inv in H as [H|H]];
    (apply m_digit2_inv in H || apply m_digit_inv in H);
    destruct H as (n & s' & Hn & H); exists n, s'; (split; [lia|done]).
Qed.

Lemma m_M_inv (kn : nat → @cont R) s x :
  m_M kn s = Some x → ∃ n s', n ≤ 59 ∧ kn n s' = Some x.
Proof.
  unfold m_M.
  intros [H|H]%m_alt_inv;
    (apply m_digit2_inv in H || apply m_digit_inv in H);
    destruct H as (n & s' & Hn & H); exists n, s'; (split; [lia|done]).
Qed.

Lemma m_S_inv (kn : nat → @cont R) s x :
  m_S kn s = Some x → ∃ n s', n ≤ 61 ∧ kn n s' = Some x.
Proof.
  unfold m_S. intros H.
  apply m_alt_inv in H as [H|H]; [|apply m_alt_inv in H as [H|H]];
    (apply m_digit2_inv in H || apply m_digit_inv in H);
    destruct H as (n & s' & Hn & H); exists n, s'; (split; [lia|done]).
Qed.
End MatcherInversion.

Lemma month_names_range i w : (i, w) ∈ month_names → 1 ≤ i ≤ 12.
Proof.
  unfold month_names. rewrite !elem_of_cons, elem_of_nil.
  intros H. repeat (destruct H as [[= -> _]|H]; [lia|]). done.
Qed.

(** The groups of a match of the input format are in the ranges of
    their directives. *)
Lemma match_input_format_ranges s g :
  match_input_format s = Some g →
  1 ≤ g_B g ≤ 12 ∧ 1 ≤ g_d g ≤ 31 ∧ g_H g ≤ 23 ∧ g_M g ≤ 59.
Proof.
  unfold match_input_format. intros H.
  apply m_names_inv in H as (A & wA & ? & _ & H).
  apply m_lit_inv in H as (? & H). apply m_spaces_inv in H as (? & H).
  apply m_names_inv in H as (B & wB & ? & HB%month_names_range & H).
  apply m_spaces_inv in H as (? & H).
  apply m_d_inv in H as (d & ? & Hd & H).
  apply m_lit_inv in H as (? & H). apply m_spaces_inv in H as (? & H).
  apply m_Y_inv in H as (Y & ? & H). apply m_spaces_inv in H as (? & H).
  apply m_H_inv in H as (hh & ? & HH & H). apply m_lit_inv in H as (? & H).
  apply m_M_inv in H as (mm & ? & HM & H). apply m_lit_inv in H as (? & H).
  apply m_S_inv in H as (ss & ? & HS & H). apply m_spaces_inv in H as (? & H).
  apply m_names_inv in H as (p & wp & ? & _ & H).
  injection H as <-. simpl. lia.
Qed.

Lemma strptime_valid date_str t : strptime date_str = Ok t → valid_datetime t.
Proof.
  unfold strptime, valid_datetime.
  destruct (match_input_format date_str) as [g|] eqn:Hg; [|done].
  apply match_input_format_ranges in Hg.
  destruct (negb _); [done|].
  destruct (g_Y g =? 0); [done|].
  destruct (days_in_month (g_Y g) (g_B g) <? g_d g) eqn:Hd; [done|].
  destruct (59 <? g_S g) eqn:HS; [done|].
  intros [= <-]. simpl.
  apply Nat.ltb_ge in Hd. apply Nat.ltb_ge in HS. lia.
Qed.

(** ** Dates: the output format read back *)

Section MatcherForward.
Context {R : Type}.

(** The case [n = 0], by evaluation, and then [n] for its predecessor. *)
Ltac case_zero n :=
  destruct n as [|n];
  [intros; try lia;
   match goal with
   | H : _ = Some _ |- _ => vm_compute; vm_compute in H; by rewrite H
   end|].

Lemma m_d_two_digits n (kn : nat → @cont R) rest x :
  1 ≤ n ≤ 31 → kn n rest = Some x → m_d kn (two_digits n ++ rest) = Some x.
Proof. revert kn rest x. do 32 case_zero n. intros; lia. Qed.

Lemma m_m_two_digits n (kn : nat → @cont R) rest x :
  1 ≤ n ≤ 12 → kn n rest = Some x → m_m kn (two_digits n ++ rest) = Some x.
Proof. revert kn rest x. do 13 case_zero n. intros; lia. Qed.

Lemma m_y_two_digits n (kn : nat → @cont R) rest x :
  n ≤ 99 → kn n rest = Some x → m_y kn (two_digits n ++ rest) = Some x.
Proof. revert kn rest x. do 100 case_zero n. intros; lia. Qed.

Lemma m_H_two_digits n (kn : nat → @cont R) rest x :
  n ≤ 23 → kn n rest = Some x → m_H kn (two_digits n ++ rest) = Some x.
Proof. revert kn rest x. do 24 case_zero n. intros; lia. Qed.

Lemma m_M_two_digits n (kn : nat → @cont R) rest x :
  n ≤ 59 → kn n rest = Some x → m_M kn (two_digits n ++ rest) = Some x.
Proof. revert kn rest x. do 60 case_zero n. intros; lia. Qed.

Lemma m_S_two_digits n (kn : nat → @cont R) rest x :
  n ≤ 59 → kn n rest = Some x → m_S kn (two_digits n ++ rest) = Some x.
Proof. revert kn rest x. do 60 case_zero n. intros; lia. Qed.
End MatcherForward.

Lemma m_lit_here {R} a (k : @cont R) rest :
  Ascii.eqb (lower a) a = true → m_lit a k (a :: rest) = k rest.
Proof. intros H. unfold m_lit, m_class. by rewrite H. Qed.

Lemma m_spaces_one {R} (k : @cont R) c rest :
  isspace c = false → m_spaces k (" "%char :: c :: rest) = k (c :: rest).
Proof. intros H. unfold m_spaces, m_class. cbn. by rewrite H. Qed.

Lemma digit_char_not_space n : isspace (digit_char n) = false.
Proof.
  unfold digit_char. pose proof (Nat.mod_upper_bound n 10 ltac:(lia)) as H.
  revert H. generalize (n mod 10). intros d Hd.
  do 10 (destruct d as [|d]; [reflexivity|]). lia.
Qed.

Lemma days_in_month_le y m : days_in_month y m ≤ 31.
Proof.
  unfold days_in_month.
  do 12 (destruct m as [|m]; [try destruct (is_leap y); lia|]). lia.
Qed.

Lemma is_leap_two_digit_year y :
  is_leap y = true → is_leap (two_digit_year (y mod 100)) = true.
Proof.
  unfold is_leap at 1. intros [H4 H100]%andb_prop.
  apply Nat.eqb_eq in H4.
  destruct (decide (y mod 100 = 0)) as [->|Hyy]; [reflexivity|].
  set (y' := two_digit_year (y mod 100)).
  assert (y' = 2000 + y mod 100 ∨ y' = 1900 + y mod 100) as Hy'.
  { unfold y', two_digit_year. destruct (_ <=? 68); auto. }
  pose proof (Nat.mod_upper_bound y 100 ltac:(lia)).
  pose proof (Nat.div_mod_eq y 100). pose proof (Nat.div_mod_eq y 4).
  pose proof (Nat.div_mod_eq y' 100). pose proof (Nat.div_mod_eq y' 4).
  pose proof (Nat.mod_upper_bound y' 100 ltac:(lia)).
  pose proof (Nat.mod_upper_bound y' 4 ltac:(lia)).
  assert (y' mod 4 = 0) as E4 by lia.
  assert (y' mod 100 ≠ 0) as E100 by lia.
  unfold is_leap. apply andb_true_intro. split; [by apply Nat.eqb_eq|].
  apply Nat.eqb_neq in E100. by rewrite E100.
Qed.

Lemma days_in_month_two_digit_year y m :
  days_in_month y m ≤ days_in_month (two_digit_year (y mod 100)) m.
Proof.
  unfold days_in_month. destruct m as [|[|[|m]]]; [lia|lia| |].
  - destruct (is_leap y) eqn:E.
    + by rewrite is_leap_two_digit_year.
    + destruct (is_leap (two_digit_year _)); lia.
  - do 10 (destruct m as [|m]; [lia|]). lia.
Qed.

(** The output format matches what [strftime] prints, and the groups are
    the fields, the year with its last two digits. *)
Lemma match_output_strftime t :
  valid_datetime t →
  match_output_format (strftime t)
  = Some (mk_output_groups (day t) (month t) (year t mod 100)
            (hour t) (minute t) (second t) []).
Proof.
  intros (Hm & Hd & HH & HM & HS).
  pose proof (days_in_month_le (year t) (month t)).
  pose proof (Nat.mod_upper_bound (year t) 100 ltac:(lia)).
  change (strftime t) with
    (two_digits (day t) ++ "/"%char :: two_digits (month t) ++ "/"%char
       :: two_digits (year t mod 100) ++ " "%char
       :: digit_char (hour t / 10) :: ([digit_char (hour t)] ++ ":"%char
       :: two_digits (minute t) ++ ":"%char :: two_digits (second t) ++ [])).
  unfold match_output_format.
  apply m_d_two_digits; [lia|]. cbv beta. rewrite m_lit_here by done.
  apply m_m_two_digits; [lia|]. cbv beta. rewrite m_lit_here by done.
  apply m_y_two_digits; [lia|]. cbv beta.
  rewrite m_spaces_one by apply digit_char_not_space.
  change (digit_char (hour t / 10) :: [digit_char (hour t)] ++ ?r)
    with (two_digits (hour t) ++ r).
  apply m_H_two_digits; [lia|]. cbv beta. rewrite m_lit_here by done.
  apply m_M_two_digits; [lia|]. cbv beta. rewrite m_lit_here by done.
  apply m_S_two_digits; [lia|]. reflexivity.
Qed.

Lemma convert_strftime t :
  valid_datetime t →
  convert_date_to_iso (strftime t)
  = Ok (isoformat (mk_datetime (two_digit_year (year t mod 100)) (month t)
                     (day t) (hour t) (minute t) (second t))).
Proof.
  intros Hvalid. unfold convert_date_to_iso, strptime_output.
  rewrite match_output_strftime by done. cbn [o_rest o_d o_m o_y o_H o_M o_S length Nat.eqb negb].
  destruct Hvalid as (Hm & Hd & HH & HM & HS).
  pose proof (days_in_month_two_digit_year (year t) (month t)) as Hpivot.
  rewrite (proj2 (Nat.ltb_ge _ _)) by lia.
  rewrite (proj2 (Nat.ltb_ge _ _)) by lia.
  reflexivity.
Qed.

(** X14: every timestamp that [tidy_date] returns has 17 characters and
    is read back by [convert_date_to_iso] without exception: the result
    is the ISO form of the same day, month and time, in the year that
    has the same last two digits and lies between 1969 and 2068. *)
Theorem tidy_date_converts (raw_date timestamp : str) :
  tidy_date raw_date = Ok timestamp →
  ∃ t, valid_datetime t
       ∧ timestamp = strftime t ∧ length timestamp = 17
       ∧ 1969 ≤ two_digit_year (year t mod 100) ≤ 2068
       ∧ convert_date_to_iso timestamp
         = Ok (isoformat (mk_datetime (two_digit_year (year t mod 100)) (month t)
                            (day t) (hour t) (minute t) (second t))).
Proof.
  unfold tidy_date. intros (t & Ht & Hret)%bind_Ok. ret_inv Hret.
  apply strptime_valid in Ht. exists t.
  split_and!; [done|done|reflexivity| | |by apply convert_strftime].
  - unfold two_digit_year. destruct (_ <=? 68) eqn:E; [lia|].
    apply Nat.leb_gt in E. lia.
  - unfold two_digit_year. destruct (_ <=? 68) eqn:E.
    + apply Nat.leb_le in E. lia.
    + pose proof (Nat.mod_upper_bound (year t) 100 ltac:(lia)). lia.
Qed.

Lemma tidy_date_converts_witness :
  ∃ t, valid_datetime t
       ∧ txt "24/10/18 10:25:36" = strftime t
       ∧ length (txt "24/10/18 10:25:36") = 17
       ∧ 1969 ≤ two_digit_year (year t mod 100) ≤ 2068
       ∧ convert_date_to_iso (txt "24/10/18 10:25:36")
         = Ok (isoformat (mk_datetime (two_digit_year (year t mod 100)) (month t)
                            (day t) (hour t) (minute t) (second t))).
Proof.
  apply (tidy_date_converts (txt "Added on Wednesday, October 24, 2018 10:25:36 PM")).
  vm_compute. reflexivity.
Defined.

Example convert_date_to_iso_ex :
  convert_date_to_iso (txt "24/10/18 10:25:36") = Ok (txt "2018-10-24T10:25:36")
  ∧ convert_date_to_iso (txt "24/10/69 10:25:36") = Ok (txt "1969-10-24T10:25:36")
  ∧ convert_date_to_iso (txt "30/02/18 10:25:36") = Raise ValueError
  ∧ convert_date_to_iso (txt "2018-10-24") = Raise ValueError.
Proof. vm_compute. done. Qed.

(** ** Writing to the table *)

Lemma select_hash_empty table d :
  (length (select_hash table d) =? 0) = true ↔ d ∉ row_hash <$> table.
Proof.
  unfold select_hash. rewrite Nat.eqb_eq, length_zero_iff_nil. split.
  - intros Hnil (r & -> & Hr)%list_elem_of_fmap.
    by apply (filter_nil_not_elem_of _ _ r Hnil).
  - intros Hd. apply filter_none. intros r Hr Heq. apply Hd.
    apply list_elem_of_fmap. eauto.
Qed.

(** One Highlight: the rows of the table stay, at most one row is added
    at the end, the hash of the Highlight is in the table afterwards, and
    hashes that were distinct stay distinct. *)
Lemma write_highlight_returns b table h table' :
  write_highlight b table h = Returns table' →
  table `prefix_of` table'
  ∧ (∃ d, to_hash h = Ok d ∧ d ∈ row_hash <$> table')
  ∧ (NoDup (row_hash <$> table) → NoDup (row_hash <$> table')).
Proof.
  unfold write_highlight. destruct (to_hash h) as [d|e]; [|done].
  destruct (length (select_hash table d) =? 0) eqn:Hsel.
  - destruct (date h) as [dt|]; [|done].
    destruct (convert_date_to_iso dt) as [ts|e]; [|done].
    intros [= <-]. apply select_hash_empty in Hsel. split_and!.
    + by apply prefix_app_r.
    + exists d. split; [done|]. rewrite fmap_app. apply elem_of_app. right.
      apply list_elem_of_here.
    + intros Hnd. rewrite fmap_app. apply NoDup_app. split_and!; [done| |].
      * intros x Hx ->%list_elem_of_singleton. done.
      * apply NoDup_singleton.
  - intros [= <-]. split_and!; [done| |done].
    exists d. split; [done|].
    destruct (decide (d ∈ row_hash <$> table)) as [Hin|Hnin]; [done|].
    apply select_hash_empty in Hnin. congruence.
Qed.

Lemma write_highlights_returns b hs table table' :
  write_highlights b table hs = Returns table' →
  table `prefix_of` table'
  ∧ (∀ h, h ∈ hs → ∃ d, to_hash h = Ok d ∧ d ∈ row_hash <$> table')
  ∧ (NoDup (row_hash <$> table) → NoDup (row_hash <$> table')).
Proof.
  revert table. induction hs as [|h hs IH]; intros table; simpl.
  - intros [= <-]. split_and!; [done| |done]. by intros h ?%not_elem_of_nil.
  - destruct (write_highlight b table h) as [table1|e] eqn:Hh; [|done].
    apply write_highlight_returns in Hh as (Hp1 & (d & Hd & Hin) & Hnd1).
    intros (Hp2 & Hall & Hnd2)%IH. split_and!.
    + by transitivity table1.
    + intros h' [->|Hh']%elem_of_cons; [|by apply Hall].
      exists d. split; [done|]. destruct Hp2 as [k ->].
      rewrite fmap_app. apply elem_of_app. by left.
    + auto.
Qed.

(** X15: a call of [write_book_to_supabase] that returns leaves the rows
    of the table as they were and adds rows at the end only; afterwards
    the hash of every Highlight of the Book is in the table, and if no
    two rows had the same hash before, no two rows have the same hash
    after. *)
Theorem write_book_keeps_table (b : Book) (table table' : list row) :
  write_book_to_supabase b table = Returns table' →
  table `prefix_of` table'
  ∧ (∀ h, h ∈ highlights b → ∃ d, to_hash h = Ok d ∧ d ∈ row_hash <$> table')
  ∧ (NoDup (row_hash <$> table) → NoDup (row_hash <$> table')).
Proof. apply write_highlights_returns. Qed.

Lemma write_highlights_present b hs table :
  (∀ h, h ∈ hs → ∃ d, to_hash h = Ok d ∧ d ∈ row_hash <$> table) →
  write_highlights b table hs = Returns table.
Proof.
  induction hs as [|h hs IH]; intros Hall; simpl; [done|].
  destruct (Hall h) as (d & Hd & Hin); [apply list_elem_of_here|].
  unfold write_highlight. rewrite Hd.
  destruct (length (select_hash table d) =? 0) eqn:Hsel.
  { apply select_hash_empty in Hsel. done. }
  apply IH. intros h' Hh'. apply Hall. by apply elem_of_cons; right.
Qed.

(** X16: writing a Book a second time changes nothing: when a call of
    [write_book_to_supabase] has returned, a second call on the table it
    left returns the same table. *)
Theorem write_book_twice (b : Book) (table table' : list row) :
  write_book_to_supabase b table = Returns table' →
  write_book_to_supabase b table' = Returns table'.
Proof.
  intros (_ & Hall & _)%write_highlights_returns.
  by apply write_highlights_present.
Qed.

(** A Highlight like the parser returns them with a title: it has
    content, and a date that [convert_date_to_iso] reads. *)
Lemma parse_lines_writable ls h :
  parse_lines ls = Ok h →
  title h = None
  ∨ ∃ c d iso, content h = Some c ∧ date h = Some d
               ∧ convert_date_to_iso d = Ok iso.
Proof.
  unfold parse_lines. intros H.
  apply bind_Ok in H as (book_details & _ & H).
  destruct (search_author book_details) as [[start group1]|];
    [|ret_inv H; by left].
  apply bind_Ok in H as (highlight_details & _ & H).
  destruct (truthy _); [|ret_inv H; by left].
  apply bind_Ok in H as (descriptor & _ & H).
  apply bind_Ok in H as (type_and_location & _ & H).
  apply bind_Ok in H as (date0 & _ & H).
  apply bind_Ok in H as (date1 & Hdate & H).
  ret_inv H. right. simpl.
  unfold tidy_date in Hdate. apply bind_Ok in Hdate as (t & Ht & Hret).
  ret_inv Hret. apply strptime_valid in Ht.
  eexists _, _, _. split_and!; [done|done|by apply convert_strftime].
Qed.

Lemma parse_all_writable blocks hs :
  parse_all blocks = Ok hs →
  Forall (λ h, title h = None
               ∨ ∃ c d iso, content h = Some c ∧ date h = Some d
                            ∧ convert_date_to_iso d = Ok iso) hs.
Proof.
  revert hs. induction blocks as [|raw rest IH]; simpl; intros hs H.
  - ret_inv H. constructor.
  - apply bind_Ok in H as (h & Hh & H).
    apply bind_Ok in H as (hs' & Hhs & H). ret_inv H.
    constructor; [|by apply IH].
    unfold parse_highlight in Hh. destruct (_ <? 5).
    + ret_inv Hh. by left.
    + by apply parse_lines_writable in Hh.
Qed.

Lemma write_highlights_writable b hs table :
  Forall (λ h, ∃ c d iso, content h = Some c ∧ date h = Some d
                          ∧ convert_date_to_iso d = Ok iso) hs →
  ∃ table', write_highlights b table hs = Returns table'.
Proof.
  revert table. induction hs as [|h hs IH]; intros table Hall; simpl; [eauto|].
  apply Forall_cons in Hall as [(c & d & iso & Hc & Hd & Hiso) Hall].
  unfold write_highlight, to_hash. rewrite Hc, Hd, Hiso.
  destruct (_ =? 0); by apply IH.
Qed.

Lemma elem_of_write_books processed books b :
  b ∈ write_books processed books → b ∈ books.
Proof.
  revert processed. induction books as [|book rest IH]; intros processed; simpl.
  - by intros ?%not_elem_of_nil.
  - destruct (truthy _); [destruct (bool_decide _)|];
      rewrite ?elem_of_cons; [intros [->|H]; [by left|right]|right|right];
      by eapply IH.
Qed.

Lemma write_library_writable books table :
  Forall (λ b, Forall (λ h, ∃ c d iso, content h = Some c ∧ date h = Some d
                                       ∧ convert_date_to_iso d = Ok iso)
                 (highlights b)) books →
  ∃ table', write_library table books = Returns table'
            ∧ table `prefix_of` table'
            ∧ (NoDup (row_hash <$> table) → NoDup (row_hash <$> table')).
Proof.
  revert table. induction books as [|b books IH]; intros table Hall; simpl.
  - exists table. by split_and!.
  - apply Forall_cons in Hall as [Hb Hall].
    destruct (write_highlights_writable b (highlights b) table Hb) as (t1 & Ht1).
    unfold write_book_to_supabase. rewrite Ht1.
    apply write_highlights_returns in Ht1 as (Hp1 & _ & Hnd1).
    destruct (IH t1 Hall) as (t2 & Ht2 & Hp2 & Hnd2).
    exists t2. split_and!; [done|by transitivity t1|auto].
Qed.

(** X17: after a first loop of [process] that raises nothing, the second
    loop raises nothing either: every Book that is written has
    Highlights with content and with a timestamp that
    [convert_date_to_iso] reads, so all the calls of
    [write_book_to_supabase] return; the rows of the table stay, and
    distinct hashes stay distinct. *)
Theorem process_writes_return
    (file_contents : str) (lib written : list Book) (table : list row) :
  process file_contents = Ok (lib, written) →
  ∃ table', write_library table written = Returns table'
            ∧ table `prefix_of` table'
            ∧ (NoDup (row_hash <$> table) → NoDup (row_hash <$> table')).
Proof.
  intros (hs & st & Hhs & [_ _ Hhl] & _ & -> & ->)%process_library.
  apply write_library_writable. apply Forall_forall. intros b Hb.
  apply elem_of_write_books in Hb. rewrite (Hhl b Hb).
  apply Forall_forall. intros h [Ht Hh]%list_elem_of_filter.
  apply parse_all_writable in Hhs. rewrite Forall_forall in Hhs.
  destruct (Hhs h Hh) as [Hnone|Hgood]; [congruence|done].
Qed.

Lemma process_writes_return_witness :
  ∃ table', write_library []
              (mk_Book (txt "The Great Book") (Some (txt "Jane Author"))
                 [full "The Great Book" "Jane Author" "Highlight"
                    "Location 120-121" "24/10/18 10:25:36" "First."] :: [])
            = Returns table'
            ∧ [] `prefix_of` table'
            ∧ (NoDup (row_hash <$> []) → NoDup (row_hash <$> table')).
Proof.
  apply (process_writes_return
           (clipping_block "The Great Book (Jane Author)" "First.")
           [mk_Book (txt "The Great Book") (Some (txt "Jane Author"))
              [full "The Great Book" "Jane Author" "Highlight"
                 "Location 120-121" "24/10/18 10:25:36" "First."]]).
  vm_compute. reflexivity.
Defined.

Lemma write_book_keeps_table_witness :
  ∃ table',
    write_book_to_supabase book_with_repeat [] = Returns table'
    ∧ length table' = 1
    ∧ [] `prefix_of` table'.
Proof.
  eexists. split; [vm_compute; reflexivity|]. split; [reflexivity|].
  refine (proj1 (write_book_keeps_table book_with_repeat [] _ _)).
  vm_compute. reflexivity.
Defined.

Lemma write_book_twice_witness :
  ∃ table',
    write_book_to_supabase book_with_repeat [] = Returns table'
    ∧ write_book_to_supabase book_with_repeat table' = Returns table'.
Proof.
  eexists. split; [vm_compute; reflexivity|].
  apply (write_book_twice book_with_repeat []). vm_compute. reflexivity.
Defined.

(** ** The lines that the parser does not read *)

Lemma slice_body {A} (a b c : A) body z :
  slice_to_last 3 (a :: b :: c :: body ++ [z]) = body.
Proof.
  unfold slice_to_last.
  replace (length (a :: b :: c :: body ++ [z]) - 1) with (3 + length body)
    by (simpl; rewrite length_app; simpl; lia).
  cbn [Nat.add take drop]. by rewrite take_app_length.
Qed.

(** X18: the parser reads neither the third line of a block nor the
    last one: blocks that differ in these two lines only parse alike. *)
Theorem third_and_last_line_unread
    (book_details highlight_details third third' last last' : str)
    (body : list str) :
  book_details ≠ [] →
  forallb one_line (book_details :: highlight_details :: third :: body ++ [last])
    = true →
  one_line third' = true → one_line last' = true →
  parse_highlight
    (join nl (book_details :: highlight_details :: third :: body ++ [last]))
  = parse_highlight
      (join nl (book_details :: highlight_details :: third' :: body ++ [last'])).
Proof.
  intros Hne Hlines Hthird Hlast.
  assert (forallb one_line
            (book_details :: highlight_details :: third' :: body ++ [last'])
          = true) as Hlines'.
  { cbn [forallb] in Hlines.
    apply andb_prop in Hlines as [Hb Hl]. apply andb_prop in Hl as [Hh Hl].
    apply andb_prop in Hl as [_ Hl]. rewrite forallb_app in Hl.
    apply andb_prop in Hl as [Hbody _].
    cbn [forallb]. rewrite Hb, Hh, Hthird, forallb_app, Hbody.
    cbn [forallb]. by rewrite Hlast. }
  unfold parse_highlight. rewrite !split_join_lines by done.
  replace (length (book_details :: highlight_details :: third' :: body ++ [last']))
    with (length (book_details :: highlight_details :: third :: body ++ [last]))
    by (simpl; rewrite !length_app; reflexivity).
  destruct (_ <? 5); [done|].
  destruct book_details as [|c0 l0]; [done|].
  cbn [drop_separator_line]. unfold parse_lines.
  by rewrite !slice_body.
Qed.

Lemma third_and_last_line_unread_witness :
  parse_highlight great_book_block
  = parse_highlight
      (lines [ "The Great Book (Jane Author)";
               "- Your Highlight on Location 120-121 | Added on Wednesday, October 24, 2018 10:25:36 PM";
               "not a blank line";
               "This is the highlighted text.";
               "==" ]%string).
Proof.
  apply (third_and_last_line_unread
           (txt "The Great Book (Jane Author)")
           (txt "- Your Highlight on Location 120-121 | Added on Wednesday, October 24, 2018 10:25:36 PM")
           [] (txt "not a blank line") [] (txt "==")
           [txt "This is the highlighted text."]);
    (discriminate || reflexivity).
Defined.

(** ** Dates in the verbose form *)

Section NamesForward.
Context {R : Type}.

Lemma m_names_weekday wd rest :
  wd ∈ english_day_names →
  ∃ A, ∀ (kn : nat → @cont R) x,
    kn A rest = Some x → m_names weekday_names kn (wd ++ rest) = Some x.
Proof.
  unfold english_day_names. cbn [map]. rewrite !elem_of_cons, elem_of_nil.
  intros H.
  repeat (destruct H as [->|H];
          [eexists; intros kn x Hk; vm_compute; vm_compute in Hk; by rewrite Hk|]).
  done.
Qed.

Lemma m_names_month i mo rest :
  english_month_names !! i = Some mo →
  ∀ (kn : nat → @cont R) x,
    kn (S i) rest = Some x → m_names month_names kn (mo ++ rest) = Some x.
Proof.
  do 12 (destruct i as [|i];
         [intros [= <-] kn x Hk; vm_compute; vm_compute in Hk; by rewrite Hk|]).
  done.
Qed.

Lemma m_names_ampm ampm :
  ampm ∈ [txt "AM"; txt "PM"] →
  ∃ p, ∀ (kn : nat → @cont R) x,
    kn p [] = Some x → m_names ampm_names kn ampm = Some x.
Proof.
  rewrite !elem_of_cons, elem_of_nil. intros H.
  repeat (destruct H as [->|H];
          [eexists; intros kn x Hk; vm_compute; vm_compute in Hk; by rewrite Hk|]).
  done.
Qed.

Lemma m_spaces_head (k : @cont R) s :
  match s with c :: _ => negb (isspace c) | [] => false end = true →
  m_spaces k (" "%char :: s) = k s.
Proof.
  destruct s as [|c s]; [done|]. intros H%negb_true_iff.
  by apply m_spaces_one.
Qed.

Lemma two_digits_mod y : two_digits y = two_digits (y mod 100).
Proof.
  unfold two_digits, digit_char.
  pose proof (Nat.div_mod_eq y 100). pose proof (Nat.mod_upper_bound y 100 ltac:(lia)).
  pose proof (Nat.div_mod_eq y 10). pose proof (Nat.mod_upper_bound y 10 ltac:(lia)).
  pose proof (Nat.div_mod_eq (y mod 100) 10).
  pose proof (Nat.mod_upper_bound (y mod 100) 10 ltac:(lia)).
  pose proof (Nat.div_mod_eq (y / 10) 10).
  pose proof (Nat.mod_upper_bound (y / 10) 10 ltac:(lia)).
  pose proof (Nat.div_mod_eq (y mod 100 / 10) 10).
  pose proof (Nat.mod_upper_bound (y mod 100 / 10) 10 ltac:(lia)).
  assert ((y / 10) mod 10 = (y mod 100 / 10) mod 10) as -> by lia.
  assert (y mod 10 = (y mod 100) mod 10) as -> by lia.
  done.
Qed.

Lemma m_Y_four_digits y (kn : nat → @cont R) rest x :
  y < 100 * 100 → kn y rest = Some x →
  m_Y kn (two_digits (y / 100) ++ two_digits y ++ rest) = Some x.
Proof.
  intros Hy Hk.
  pose proof (Nat.div_mod_eq y 100). pose proof (Nat.mod_upper_bound y 100 ltac:(lia)).
  change (m_Y kn) with (m_y (fun hi => m_y (fun lo => kn (100 * hi + lo)))).
  apply m_y_two_digits; [lia|]. cbv beta.
  rewrite two_digits_mod. apply m_y_two_digits; [lia|].
  by replace (100 * (y / 100) + y mod 100) with y by lia.
Qed.
End NamesForward.

Lemma two_digits_plain (a : ascii) n :
  isdigit a = false → forallb (λ c, negb (Ascii.eqb a c)) (two_digits n) = true.
Proof.
  intros Ha. apply digits_plain; [done|].
  unfold two_digits, digits, digit_char. cbn [forallb].
  assert (∀ m, isdigit (ascii_of_nat (48 + m mod 10)) = true) as Hd.
  { intros m. pose proof (Nat.mod_upper_bound m 10 ltac:(lia)) as Hm.
    revert Hm. generalize (m mod 10). intros d Hd.
    do 10 (destruct d as [|d]; [reflexivity|]). lia. }
  by rewrite !Hd.
Qed.

Lemma replace_day_name wd rest :
  wd ∈ english_day_names →
  replace (txt "Added on ") [] (wd ++ rest)
  = wd ++ replace (txt "Added on ") [] rest.
Proof.
  unfold english_day_names. cbn [map]. rewrite !elem_of_cons, elem_of_nil.
  intros H. repeat (destruct H as [->|H]; [vm_compute; reflexivity|]). done.
Qed.

Lemma replace_month_name i mo rest :
  english_month_names !! i = Some mo →
  replace (txt "Added on ") [] (mo ++ rest)
  = mo ++ replace (txt "Added on ") [] rest.
Proof.
  do 12 (destruct i as [|i]; [intros [= <-]; vm_compute; reflexivity|]). done.
Qed.

Lemma replace_ampm ampm :
  ampm ∈ [txt "AM"; txt "PM"] → replace (txt "Added on ") [] ampm = ampm.
Proof.
  rewrite !elem_of_cons, elem_of_nil. intros H.
  repeat (destruct H as [->|H]; [reflexivity|]). done.
Qed.

Lemma m_spaces_month_name {R} (k : @cont R) i mo rest :
  english_month_names !! i = Some mo →
  m_spaces k (" "%char :: mo ++ rest) = k (mo ++ rest).
Proof.
  do 12 (destruct i as [|i]; [intros [= <-]; by apply m_spaces_head|]). done.
Qed.

Lemma m_spaces_ampm {R} (k : @cont R) ampm :
  ampm ∈ [txt "AM"; txt "PM"] → m_spaces k (" "%char :: ampm) = k ampm.
Proof.
  rewrite !elem_of_cons, elem_of_nil. intros H.
  repeat (destruct H as [->|H]; [by apply m_spaces_head|]). done.
Qed.

Section VerboseDate.
Variables (wd mo ampm : str) (i d y hh mm ss : nat).
Hypothesis wd_name : wd ∈ english_day_names.
Hypothesis mo_name : english_month_names !! i = Some mo.
Hypothesis ampm_mark : ampm ∈ [txt "AM"; txt "PM"].

(** The text has no "Added on " to remove. *)
Lemma replace_added_verbose :
  replace (txt "Added on ") [] (verbose_date wd mo d y hh mm ss ampm)
  = verbose_date wd mo d y hh mm ss ampm.
Proof.
  unfold verbose_date.
  rewrite replace_day_name by done. f_equal.
  change (txt "Added on ") with ("A"%char :: txt "dded on ").
  rewrite replace_plain by done. f_equal.
  change ("A"%char :: txt "dded on ") with (txt "Added on ").
  rewrite (replace_month_name i) by done. f_equal.
  change (txt "Added on ") with ("A"%char :: txt "dded on ").
  rewrite replace_plain by done. f_equal.
  rewrite replace_plain by (by apply two_digits_plain). f_equal.
  rewrite replace_plain by done. f_equal.
  rewrite replace_plain by (by apply two_digits_plain). f_equal.
  rewrite replace_plain by (by apply two_digits_plain). f_equal.
  rewrite replace_plain by done. f_equal.
  rewrite replace_plain by (by apply two_digits_plain). f_equal.
  rewrite replace_plain by done. f_equal.
  rewrite replace_plain by (by apply two_digits_plain). f_equal.
  rewrite replace_plain by done. f_equal.
  rewrite replace_plain by (by apply two_digits_plain). f_equal.
  rewrite replace_plain by done. f_equal.
  change ("A"%char :: txt "dded on ") with (txt "Added on ").
  by apply replace_ampm.
Qed.

Hypothesis y_range : 1 ≤ y < 100 * 100.
Hypothesis d_range : 1 ≤ d ≤ days_in_month y (S i).
Hypothesis hh_range : hh ≤ 23.
Hypothesis mm_range : mm ≤ 59.
Hypothesis ss_range : ss ≤ 59.

(** The input format matches the text, and the groups are its fields. *)
Lemma match_input_verbose :
  ∃ A p, match_input_format (verbose_date wd mo d y hh mm ss ampm)
         = Some (mk_groups A (S i) d y hh mm ss p []).
Proof.
  pose proof (days_in_month_le y (S i)).
  assert (∀ (k : @cont date_groups) n rest,
            m_spaces k (" "%char :: two_digits n ++ rest) = k (two_digits n ++ rest))
    as Hsp_digits.
  { intros k n rest. apply m_spaces_head. cbn. by rewrite digit_char_not_space. }
  destruct (m_names_weekday (R := date_groups) wd
              (txt ", " ++ mo ++ txt " " ++ two_digits d ++ txt ", "
               ++ two_digits (y / 100) ++ two_digits y ++ txt " "
               ++ two_digits hh ++ txt ":" ++ two_digits mm ++ txt ":"
               ++ two_digits ss ++ txt " " ++ ampm) wd_name) as (A & HA).
  destruct (m_names_ampm (R := date_groups) ampm ampm_mark) as (p & Hp).
  exists A, p. unfold match_input_format, verbose_date.
  apply HA.
  change (txt ", " ++ ?r) with (","%char :: " "%char :: r).
  rewrite m_lit_here by done. rewrite (m_spaces_month_name _ i) by done.
  apply (m_names_month i mo _ mo_name). cbv beta.
  change (txt " " ++ ?r) with (" "%char :: r).
  rewrite Hsp_digits. apply m_d_two_digits; [lia|]. cbv beta.
  change (txt ", " ++ ?r) with (","%char :: " "%char :: r).
  rewrite m_lit_here by done.
  rewrite Hsp_digits. apply m_Y_four_digits; [lia|]. cbv beta.
  change (txt " " ++ ?r) with (" "%char :: r).
  rewrite Hsp_digits. apply m_H_two_digits; [lia|]. cbv beta.
  change (txt ":" ++ ?r) with (":"%char :: r).
  rewrite m_lit_here by done.
  apply m_M_two_digits; [lia|]. cbv beta.
  change (txt ":" ++ ?r) with (":"%char :: r).
  rewrite m_lit_here by done.
  apply m_S_two_digits; [lia|]. cbv beta.
  change (txt " " ++ ampm) with (" "%char :: ampm).
  rewrite m_spaces_ampm by done. by apply Hp.
Qed.
End VerboseDate.

(** X19: a date in the verbose form, with any of the English names of
    the days and of the months, a day that the month has, a year of up
    to four digits and a time with two digits for the hour, is tidied
    without exception into DD/MM/YY HH:MM:SS.  The hour comes out as it
    is written, after AM and after PM alike, and the name of the day is
    not compared with the date. *)
Theorem tidy_date_verbose (wd mo ampm : str) (i d y hh mm ss : nat) :
  wd ∈ english_day_names → english_month_names !! i = Some mo →
  ampm ∈ [txt "AM"; txt "PM"] →
  1 ≤ y < 100 * 100 → 1 ≤ d ≤ days_in_month y (S i) →
  hh ≤ 23 → mm ≤ 59 → ss ≤ 59 →
  tidy_date (verbose_date wd mo d y hh mm ss ampm)
  = Ok (two_digits d ++ txt "/" ++ two_digits (S i) ++ txt "/"
        ++ two_digits (y mod 100) ++ txt " "
        ++ two_digits hh ++ txt ":" ++ two_digits mm ++ txt ":" ++ two_digits ss).
Proof.
  intros Hwd Hmo Hampm Hy Hd Hhh Hmm Hss.
  unfold tidy_date. rewrite (replace_added_verbose wd mo ampm i) by done.
  destruct (match_input_verbose wd mo ampm i d y hh mm ss) as (A & p & Hmatch);
    try done.
  unfold strptime. rewrite Hmatch.
  cbn [g_rest g_Y g_B g_d g_S g_H g_M length Nat.eqb negb].
  rewrite (proj2 (Nat.eqb_neq y 0)) by lia.
  rewrite (proj2 (Nat.ltb_ge _ _)) by lia.
  rewrite (proj2 (Nat.ltb_ge _ _)) by lia.
  reflexivity.
Qed.

Lemma tidy_date_verbose_witness :
  tidy_date (txt "Wednesday, October 24, 2018 22:25:36 AM")
  = Ok (txt "24/10/18 22:25:36").
Proof.
  apply (tidy_date_verbose (txt "Wednesday") (txt "October") (txt "AM")
           9 24 2018 22 25 36).
  - unfold english_day_names. cbn [map].
    do 2 (apply elem_of_cons; right). apply list_elem_of_here.
  - reflexivity.
  - apply list_elem_of_here.
  - lia.
  - vm_compute. lia.
  - lia.
  - lia.
  - lia.
Defined.
